(** * Transit router: the CSV loader and the OverlayMap component

    A shallow embedding of two source files of the repository:

    - the CSV loader ([loadCSV] and its helpers), which maps the rows of a
      delimited-text file to typed records following a column specification;
    - the React component [OverlayMap] of [overlaymap/map.tsx], which wires a
      canvas overlay to a host map and to the callbacks of its props.

    JavaScript objects used as records are finite maps from field names to
    values; promises are their settled outcome; calls made to collaborators
    (the file system, the overlay, the host map, the props' callbacks) are
    recorded in a list, in the order the code makes them. *)

From Stdlib Require Import Ascii.
From stdpp Require Import gmap strings list.

(** ** JavaScript truthiness, for the values the code tests *)

(** [if (s)] for a string or [null]/[undefined]: only a non-empty string
    passes. *)
Definition truthyString (s : option string) : bool :=
  match s with
  | Some s => negb (String.eqb s "")
  | None => false
  end.

(** [if (b)] for an optional boolean property. *)
Definition truthyBool (b : option bool) : bool :=
  match b with
  | Some b => b
  | None => false
  end.

(** [a || b] where [a] is an optional string and [b] a string. *)
Definition orString (a : option string) (b : string) : string :=
  match a with
  | Some s => if truthyString a then s else b
  | None => b
  end.

(** A template literal prints an absent value as [undefined]. *)
Definition showString (s : option string) : string :=
  match s with
  | Some s => s
  | None => "undefined"
  end.

Module CsvLoader.

(** ** Data model *)

Inductive ColumnType := STRING | NUMERIC | BOOLEAN.

Record Column := {
  name : string;
  type : ColumnType;
  optional : option bool;
  destination : option string;
}.

Record CSVSpec := {
  columns : list Column;
  isOptional : option bool;
}.

(** [IndexedColumn extends Column]: a copy of the column ([_.extend({}, column,
    {number})]) with the column's position in the header. *)
Record IndexedColumn := {
  base : Column;
  number : nat;
}.

(** A parsed row: the cells of one line. *)
Abbreviation Row := (list string).

(** What the code throws inside the parser's callback. *)
Inductive Thrown :=
| Error (message : string)
| TypeError.

Inductive result (A : Type) :=
| Ok (a : A)
| Throw (e : Thrown).
Arguments Ok {A} a.
Arguments Throw {A} e.

(** The reason a promise is rejected with: a plain string
    ([Promise.reject(str)]) or what the callback threw. *)
Inductive Rejection :=
| Message (s : string)
| Raised (e : Thrown).

Inductive Promise (A : Type) :=
| Resolved (v : A)
| Rejected (r : Rejection).
Arguments Resolved {A} v.
Arguments Rejected {A} r.

(** Calls to the file system, in order. *)
Inductive IOCall :=
| FileExists (filename : string)
| ParseCSV (filename : string).

(** ** Helpers that live outside the two source files *)

(** Modelled from the spec: [utils.findDuplicate] is not among the sources.
    The loader uses it to find a repeated field name and prints its result in
    the error message, so it returns a repeated element, or null when there is
    none. Here: the first element, scanning from the left, that occurred
    before. *)
Fixpoint findDuplicateFrom (seen xs : list string) : option string :=
  match xs with
  | [] => None
  | x :: rest =>
      if bool_decide (x ∈ seen) then Some x
      else findDuplicateFrom (x :: seen) rest
  end.

Definition findDuplicate (xs : list string) : option string :=
  findDuplicateFrom [] xs.

(** [Array.prototype.indexOf] on strings; [None] stands for [-1]. *)
Fixpoint indexOf (xs : list string) (x : string) : option nat :=
  match xs with
  | [] => None
  | y :: ys => if String.eqb y x then Some 0 else S <$> indexOf ys x
  end.

(** Modelled from the spec: [parseCSV] (module [csv-parser]) is not among the
    sources. It reads the delimited-text source and hands the parsed rows to
    the callback chunk by chunk, in order; the promise it returns resolves
    after the last chunk and is rejected with what the callback throws, after
    which no result is produced. *)
Fixpoint parseCSV {S : Type} (chunks : list (list Row))
    (callback : S -> list Row -> result S) (st : S) : result S :=
  match chunks with
  | [] => Ok st
  | rows :: rest =>
      match callback st rows with
      | Ok st' => parseCSV rest callback st'
      | Throw e => Throw e
      end
  end.

(** ** The loader *)

Definition fieldName (c : Column) : string :=
  orString (destination c) (name c).

(** Check for errors in a CSV spec: an error string, or null if the spec is
    OK. The duplicate is tested with [if (dupe)]. *)
Definition findSpecError (spec : CSVSpec) : option string :=
  let fields := map fieldName (columns spec) in
  let dupe := findDuplicate fields in
  if truthyString dupe
  then Some ("Duplicate field in CSV spec: " +:+ showString dupe)
  else None.

Definition missingColumnMessage (column : Column) (header : Row)
    (filename : option string) : string :=
  "Required column " +:+ name column +:+ " missing from "
    +:+ String.concat "," header +:+ " in " +:+ showString filename +:+ ".".

(** [header] is [rows[0]], which is undefined when the first chunk has no row:
    [header.indexOf] then throws a TypeError at the first column. *)
Fixpoint extractColumnMapping (columns : list Column) (header : option Row)
    (filename : option string) : result (list IndexedColumn) :=
  match columns with
  | [] => Ok []
  | column :: rest =>
      match header with
      | None => Throw TypeError
      | Some h =>
          match indexOf h (name column) with
          | None =>
              if negb (truthyBool (optional column))
              then Throw (Error (missingColumnMessage column h filename))
              else extractColumnMapping rest header filename
          | Some colNum =>
              match extractColumnMapping rest header filename with
              | Ok out => Ok ({| base := column; number := colNum |} :: out)
              | Throw e => Throw e
              end
          end
      end
  end.

(** Fills in the 'destination' field where it's absent. *)
Definition addDestination (column : IndexedColumn) : IndexedColumn :=
  {| base := {| name := name (base column);
                type := type (base column);
                optional := optional (base column);
                destination := Some (fieldName (base column)) |};
     number := number column |}.

Definition addDestinations (columns : list IndexedColumn) : list IndexedColumn :=
  map addDestination columns.

Section Loader.

(** JavaScript numbers and the conversion [Number(...)] of a cell (a string,
    or undefined when the row is too short) are primitives of the language;
    [Number] yields NaN exactly on the arguments that are not numeric
    strings. *)
Variable JSNum : Type.
Variable Number : option string -> JSNum.

Inductive Value :=
| VUndefined
| VString (s : string)
| VNumber (n : JSNum)
| VBoolean (b : bool).

(** The value the loop body computes for one column of one row. *)
Definition cellValue (t : ColumnType) (cell : option string) : Value :=
  match t with
  | STRING => match cell with Some s => VString s | None => VUndefined end
  | NUMERIC => VNumber (Number cell)
  | BOOLEAN => VBoolean (bool_decide (cell = Some "1"))
  end.

(** The key [column.destination] and the value assigned under it. *)
Definition keyOf (column : IndexedColumn) : string :=
  showString (destination (base column)).

Definition valueOf (row : Row) (column : IndexedColumn) : Value :=
  cellValue (type (base column)) (row !! number column).

(** [o[column.destination] = ...] on the plain object [o = {}]. The key
    [__proto__] is the accessor of [Object.prototype]: its setter ignores a
    value that is neither an object nor null, and every value assigned here
    is a string, a number, a boolean or undefined, so that assignment stores
    no field. Every other key becomes a field of the object. *)
Definition assign (row : Row) (o : gmap string Value) (column : IndexedColumn)
    : gmap string Value :=
  if String.eqb (keyOf column) "__proto__" then o
  else <[keyOf column := valueOf row column]> o.

Definition rowToObject (columns : list IndexedColumn) (row : Row)
    : gmap string Value :=
  foldl (assign row) ∅ columns.

(** [rows.map(row => ...)]: iterating over [columns] while it is still null
    throws as soon as there is a row. *)
Definition convertRows (columns : option (list IndexedColumn)) (rows : list Row)
    : result (list (gmap string Value)) :=
  match columns with
  | Some cs => Ok (map (rowToObject cs) rows)
  | None => match rows with [] => Ok [] | _ :: _ => Throw TypeError end
  end.

(** The variables the callback closes over. *)
Record Closure := {
  isFirst : bool;
  indexed : option (list IndexedColumn);
  values : list (gmap string Value);
}.

Definition initial : Closure :=
  {| isFirst := true; indexed := None; values := [] |}.

(** The callback given to [parseCSV]. *)
Definition onRows (filename : string) (spec : CSVSpec) (st : Closure)
    (rows : list Row) : result Closure :=
  if isFirst st then
    match extractColumnMapping (columns spec) (rows !! 0) (Some filename) with
    | Throw e => Throw e
    | Ok cols =>
        let cols := addDestinations cols in
        match convertRows (Some cols) (drop 1 rows) with
        | Throw e => Throw e
        | Ok os =>
            Ok {| isFirst := false; indexed := Some cols;
                  values := values st ++ os |}
        end
    end
  else
    match convertRows (indexed st) rows with
    | Throw e => Throw e
    | Ok os =>
        Ok {| isFirst := false; indexed := indexed st;
              values := values st ++ os |}
    end.

(** The files: [fs filename] is [None] when the file does not exist, and
    otherwise the rows the parser reads from it, in the chunks it delivers.
    [utils.fileExists], which is not among the sources, is the test that
    [fs filename] is not [None]. *)
Variable fs : string -> option (list (list Row)).

Definition loadCSV (filename : string) (spec : CSVSpec)
    : list IOCall * Promise (list (gmap string Value)) :=
  let error := findSpecError spec in
  if truthyString error then ([], Rejected (Message (showString error)))
  else
    match fs filename with
    | None =>
        ([FileExists filename],
         if truthyBool (isOptional spec) then Resolved []
         else Rejected (Message ("Unable to load " +:+ filename
                                   +:+ ": file does not exist.")))
    | Some chunks =>
        ([FileExists filename; ParseCSV filename],
         match parseCSV chunks (onRows filename spec) initial with
         | Ok st => Resolved (values st)
         | Throw e => Rejected (Raised e)
         end)
    end.

(** The header row of a file: the first row of its first chunk. *)
Definition headerRow (chunks : list (list Row)) : option Row :=
  match chunks with
  | [] => None
  | rows :: _ => rows !! 0
  end.

(** The data rows of a file: every row after the first row of the first
    chunk. *)
Definition dataRows (chunks : list (list Row)) : list Row :=
  match chunks with
  | [] => []
  | rows :: rest => drop 1 rows ++ concat rest
  end.

End Loader.

Arguments VUndefined {JSNum}.
Arguments VString {JSNum} s.
Arguments VBoolean {JSNum} b.
Arguments VNumber {JSNum} n.
Arguments cellValue {JSNum} Number t cell.
Arguments valueOf {JSNum} Number row column.
Arguments assign {JSNum} Number row o column.
Arguments rowToObject {JSNum} Number columns row.
Arguments convertRows {JSNum} Number columns rows.
Arguments initial {JSNum}.
Arguments onRows {JSNum} Number filename spec st rows.
Arguments loadCSV {JSNum} Number fs filename spec.

End CsvLoader.

(** ** The conversion of a string to a number

    [Number(s)] on a string follows the grammar StringNumericLiteral of
    ECMAScript: white space around an optional numeric literal, which is a
    decimal literal (optional sign, then [Infinity] or digits with an optional
    fraction and exponent) or a binary, octal or hexadecimal integer without
    sign. A string outside the grammar converts to NaN; the empty string and
    a string of white space convert to 0. A string is taken as a sequence of
    code units below 256. The value of a numeric literal is a floating-point
    number and is left to a parameter. *)
Module StringToNumber.

Definition between (lo hi : N) (a : Ascii.ascii) : bool :=
  ((lo <=? Ascii.N_of_ascii a) && (Ascii.N_of_ascii a <=? hi))%N.

Definition isDecimalDigit : Ascii.ascii -> bool := between 48 57.
Definition isBinaryDigit : Ascii.ascii -> bool := between 48 49.
Definition isOctalDigit : Ascii.ascii -> bool := between 48 55.
Definition isHexDigit (a : Ascii.ascii) : bool :=
  isDecimalDigit a || between 65 70 a || between 97 102 a.

(** Tab, line feed, vertical tab, form feed, carriage return, space and
    no-break space. *)
Definition isStrWhiteSpaceChar (a : Ascii.ascii) : bool :=
  between 9 13 a || between 32 32 a || between 160 160 a.

Definition isSign (a : Ascii.ascii) : bool :=
  Ascii.eqb a "+"%char || Ascii.eqb a "-"%char.

Fixpoint dropWhile (p : Ascii.ascii -> bool) (l : list Ascii.ascii) : list Ascii.ascii :=
  match l with
  | [] => []
  | a :: rest => if p a then dropWhile p rest else l
  end.

Definition trim (l : list Ascii.ascii) : list Ascii.ascii :=
  rev (dropWhile isStrWhiteSpaceChar (rev (dropWhile isStrWhiteSpaceChar l))).

Definition nonEmptyAll (p : Ascii.ascii -> bool) (l : list Ascii.ascii) : bool :=
  match l with
  | [] => false
  | _ :: _ => forallb p l
  end.

Definition dropSign (l : list Ascii.ascii) : list Ascii.ascii :=
  match l with
  | a :: rest => if isSign a then rest else l
  | [] => []
  end.

Definition startsWithDigit (l : list Ascii.ascii) : bool :=
  match l with
  | a :: _ => isDecimalDigit a
  | [] => false
  end.

(** Nothing, or [e] or [E] followed by a signed integer. *)
Definition isExponentPartOpt (l : list Ascii.ascii) : bool :=
  match l with
  | [] => true
  | a :: rest =>
      (Ascii.eqb a "e"%char || Ascii.eqb a "E"%char)
      && nonEmptyAll isDecimalDigit (dropSign rest)
  end.

Definition isStrUnsignedDecimalLiteral (l : list Ascii.ascii) : bool :=
  if String.eqb (String.string_of_list_ascii l) "Infinity" then true
  else
    match l with
    | a :: rest =>
        if Ascii.eqb a "."%char
        then startsWithDigit rest
             && isExponentPartOpt (dropWhile isDecimalDigit rest)
        else
          startsWithDigit l
          && match dropWhile isDecimalDigit l with
             | b :: fraction =>
                 if Ascii.eqb b "."%char
                 then isExponentPartOpt (dropWhile isDecimalDigit fraction)
                 else isExponentPartOpt (b :: fraction)
             | [] => true
             end
    | [] => false
    end.

Definition isNonDecimalIntegerLiteral (l : list Ascii.ascii) : bool :=
  match l with
  | zero :: x :: digits =>
      Ascii.eqb zero "0"%char
      && (if Ascii.eqb x "x"%char || Ascii.eqb x "X"%char then nonEmptyAll isHexDigit digits
          else if Ascii.eqb x "o"%char || Ascii.eqb x "O"%char
               then nonEmptyAll isOctalDigit digits
          else if Ascii.eqb x "b"%char || Ascii.eqb x "B"%char
               then nonEmptyAll isBinaryDigit digits
          else false)
  | _ => false
  end.

Definition isStringNumericLiteral (s : string) : bool :=
  match trim (String.list_ascii_of_string s) with
  | [] => true
  | l => isStrUnsignedDecimalLiteral (dropSign l) || isNonDecimalIntegerLiteral l
  end.

(** A JavaScript number: NaN, or the value of some numeric literal. *)
Inductive JSNumber (F : Type) :=
| NaN
| Num (x : F).
Arguments NaN {F}.
Arguments Num {F} x.



End StringToNumber.

Module OverlayMap.

(** ** Types of the collaborators

    Coordinates, zoom levels, features, styled layers, faults and map styles
    are opaque to the component: it only passes them along. A [Handler] is
    the identity of a callback function received in the props. *)
Class Types := {
  LatLng : Type;
  Zoom : Type;
  Feature : Type;
  StyledFeatureData : Type;
  Fault : Type;
  Handler : Type;
  MapTypeStyle : Type;
}.

Section Component.

Context {T : Types}.

(** [google.maps.ControlPosition] is a numeric enumeration. *)
Abbreviation ControlPosition := nat.

Definition DEFAULT_DRAGGABLE_CURSOR : string := "default".

Record CenterZoomLevel := {
  center : LatLng;
  zoomLevel : Zoom;
}.

Record BoxPlusLevel := {
  box_center : LatLng;
  box_zoomLevel : Zoom;
  northeast : LatLng;
  southwest : LatLng;
}.

(** [google.maps.Data.MouseEvent]: the component reads its [latLng]. *)
Record MouseEvent := {
  latLng : LatLng;
}.

(** The props; an absent optional prop is [None]. ([style] and the children
    only reach [render], which makes no call.) *)
Record MapProps := {
  view : CenterZoomLevel;
  data : list StyledFeatureData;
  onLoad : option Handler;
  onClick : option Handler;
  onMouseOverPointer : option string;
  onError : Handler;
  onBoundsChanged : option Handler;
  mapStyles : option (list MapTypeStyle);
  minZoom : option Zoom;
  maxZoom : option Zoom;
  controlPosition : option ControlPosition;
  hideControls : option bool;
}.

(** [interface MapState {}] *)
Record MapState := EmptyObject {}.

(** The options object of [new google.maps.Map] and of the later
    [setOptions] on the controls. *)
Record ControlOptions := {
  mapTypeControl : bool;
  zoomControl : bool;
  position : ControlPosition;
}.

Inductive EventName := idle | click | mousemove | bounds_changed.

(** The calls the component makes, in order. *)
Inductive Call :=
| NewCanvasOverlay
| Overlay_setMap
| Overlay_updateData (layers : list StyledFeatureData)
| Overlay_draw
| Overlay_hitTest (point : LatLng)
| NewMap (controls : ControlOptions) (at_ : CenterZoomLevel)
    (maxZoom_ minZoom_ : option Zoom)
| Map_setDraggableCursor (cursor : string)
| Map_setCustomMapType (styles : list MapTypeStyle)
| Map_addListener (event : EventName) (once : bool)
| Map_getBounds
| Map_getCenter
| Map_getZoom
| Map_setCenter (c : LatLng)
| Map_setZoom (z : Zoom)
| Map_setControls (controls : ControlOptions)
| Props_onLoad (h : Handler)
| Props_onClick (h : Handler) (event : MouseEvent)
    (layerIndex : option nat) (feature : option Feature)
| Props_onError (h : Handler) (error : Fault)
| Props_onBoundsChanged (h : Handler) (bounds : BoxPlusLevel)
| This_setState (s : MapState).

(** ** Helpers that live outside the source file

    [utils.shallowEqual] (on the elements of the data prop, on whole props
    objects and on states, where the state not yet set is [None]), [_.isEqual]
    of underscore (on views) and the constant
    [google.maps.ControlPosition.TOP_RIGHT] are taken as given.

    Modelled from the spec: the class [CanvasOverlay] is not among the
    sources. Its contract is [hitTest(pixelPoint) -> (layerIndex, feature) |
    null]; the answer it gives for a point is left open. *)
Class Helpers := {
  TOP_RIGHT : ControlPosition;
  shallowEqual : StyledFeatureData -> StyledFeatureData -> bool;
  shallowEqualProps : MapProps -> MapProps -> bool;
  shallowEqualState : option MapState -> option MapState -> bool;
  isEqual : CenterZoomLevel -> CenterZoomLevel -> bool;
  hitTest : LatLng -> option (nat * Feature);
}.

Context {U : Helpers}.

(** Modelled from the spec: [utils.zip] is not among the sources. It pairs
    the corresponding elements of two arrays, as the "shallow per-element
    comparison" of the data prop needs; [didDataChange] only calls it on
    arrays of the same length. *)
Fixpoint zip {A B : Type} (xs : list A) (ys : list B) : list (A * B) :=
  match xs, ys with
  | x :: xs', y :: ys' => (x, y) :: zip xs' ys'
  | _, _ => []
  end.

(** What the host map answers to [getBounds], [getCenter] and [getZoom]. *)
Record Viewport := {
  bounds_northeast : LatLng;
  bounds_southwest : LatLng;
  map_center : LatLng;
  map_zoom : Zoom;
}.

(** ** The component *)

(** The instance: its current props, its fields and the listeners it has
    registered on the host map. The mousemove listener closes over the
    pointer read from the props at mount. *)
Record Component := {
  props : MapProps;
  state : option MapState;
  mapIsReady : bool;
  mounted : bool;
  idlePending : bool;
  hoverPointer : option string;
}.

(** The fault sink given to the overlay: [error => this.props.onError(error)]. *)
Definition faultSink (this : Component) (error : Fault) : list Call :=
  [Props_onError (onError (props this)) error].

(** [constructor(props)] *)
Definition construct (p : MapProps) : Component * list Call :=
  ({| props := p; state := None; mapIsReady := false; mounted := false;
      idlePending := false; hoverPointer := None |},
   [NewCanvasOverlay]).

(** [this.props.controlPosition || google.maps.ControlPosition.TOP_RIGHT] *)
Definition positionOf (p : MapProps) : ControlPosition :=
  match controlPosition p with
  | Some (S n) => S n
  | Some 0 | None => TOP_RIGHT
  end.

Definition controlsOf (p : MapProps) : ControlOptions :=
  {| mapTypeControl := negb (truthyBool (hideControls p));
     zoomControl := negb (truthyBool (hideControls p));
     position := positionOf p |}.

(** The listener of 'idle', registered with [addListenerOnce]. *)
Definition onIdle (this : Component) : Component * list Call :=
  ({| props := props this; state := state this; mapIsReady := true;
      mounted := mounted this; idlePending := false;
      hoverPointer := hoverPointer this |},
   match onLoad (props this) with
   | Some h => [Props_onLoad h]
   | None => []
   end).

(** [layerFeature && layerFeature[i]]: a pair is an array, which is truthy
    whatever it holds, so the projection is returned as it is. *)
Definition andProj {A B : Type} (layerFeature : option A) (proj : A -> B)
    : option B :=
  match layerFeature with
  | Some lf => Some (proj lf)
  | None => None
  end.

(** The listener of 'click'. *)
Definition onClickEvent (this : Component) (event : MouseEvent) : list Call :=
  match onClick (props this) with
  | Some h =>
      let layerFeature := hitTest (latLng event) in
      [Overlay_hitTest (latLng event);
       Props_onClick h event (andProj layerFeature fst) (andProj layerFeature snd)]
  | None => []
  end.

(** The listener of 'mousemove', inside [_.throttle(..., 100)]: whether the
    throttle lets a given event through depends on the clock and is supplied
    with the event. *)
Definition onMouseMove (pointer : string) (event : MouseEvent) : list Call :=
  [Overlay_hitTest (latLng event);
   Map_setDraggableCursor
     (if hitTest (latLng event) is Some _ then pointer
      else DEFAULT_DRAGGABLE_CURSOR)].

(** The listener of 'bounds_changed'. *)
Definition onBoundsChangedEvent (this : Component) (v : Viewport) : list Call :=
  [Overlay_draw; Map_getBounds; Map_getCenter; Map_getZoom]
  ++ match onBoundsChanged (props this) with
     | Some h =>
         [Props_onBoundsChanged h
            {| northeast := bounds_northeast v;
               southwest := bounds_southwest v;
               box_center := map_center v;
               box_zoomLevel := map_zoom v |}]
     | None => []
     end.

(** [componentDidMount()] *)
Definition componentDidMount (this : Component) : Component * list Call :=
  let p := props this in
  let pointer :=
    if truthyString (onMouseOverPointer p) then onMouseOverPointer p else None in
  ({| props := p; state := state this; mapIsReady := mapIsReady this;
      mounted := true; idlePending := true; hoverPointer := pointer |},
   [NewMap (controlsOf p) (view p) (maxZoom p) (minZoom p);
    Map_setDraggableCursor DEFAULT_DRAGGABLE_CURSOR]
   ++ match mapStyles p with
      | Some styles => [Map_setCustomMapType styles]
      | None => []
      end
   ++ [Map_addListener idle true; Map_addListener click false]
   ++ (if pointer is Some _ then [Map_addListener mousemove false] else [])
   ++ [Map_addListener bounds_changed false;
       Overlay_setMap;
       Overlay_updateData (data p);
       This_setState EmptyObject]).

(** Check for changes to the data: the loop over the zipped arrays. *)
Fixpoint anyNotShallowEqual (pairs : list (StyledFeatureData * StyledFeatureData))
    : bool :=
  match pairs with
  | [] => false
  | (oldEl, newEl) :: rest =>
      if negb (shallowEqual oldEl newEl) then true else anyNotShallowEqual rest
  end.

Definition didDataChange (prevData data : list StyledFeatureData) : bool :=
  if negb (length prevData =? length data)%nat then true
  else anyNotShallowEqual (zip prevData data).

(** [componentDidUpdate(prevProps, prevState)]; [this] already holds the new
    props. *)
Definition componentDidUpdate (this : Component) (prevProps : MapProps)
    : list Call :=
  let p := props this in
  (if didDataChange (data p) (data prevProps)
   then [Overlay_updateData (data p)] else [])
  ++ (if negb (isEqual (view p) (view prevProps))
      then [Map_setCenter (center (view p)); Map_setZoom (zoomLevel (view p))]
      else [])
  ++ (if negb (bool_decide (controlPosition p = controlPosition prevProps))
         || negb (bool_decide (hideControls p = hideControls prevProps))
      then [Map_setControls (controlsOf p)] else []).

(** [shouldComponentUpdate(nextProps, nextState)] *)
Definition shouldComponentUpdate (this : Component) (nextProps : MapProps)
    (nextState : option MapState) : bool :=
  negb (shallowEqualProps nextProps (props this)
        && shallowEqualState nextState (state this)).

(** ** The life of a mounted component *)

Inductive HostEvent :=
| Idle
| Click (event : MouseEvent)
| MouseMove (event : MouseEvent) (passes : bool)
| BoundsChanged (v : Viewport).

(** What happens to a mounted component: the parent passes new props, the
    state set with [setState] is applied, the host map fires an event, the
    overlay reports a fault. *)
Inductive Action :=
| Update (nextProps : MapProps)
| StateUpdate (nextState : MapState)
| Host (e : HostEvent)
| Report (error : Fault).

(** The instance as React leaves it before [componentDidUpdate]. *)
Definition withProps (this : Component) (p : MapProps) (s : option MapState)
    : Component :=
  {| props := p; state := s; mapIsReady := mapIsReady this;
     mounted := mounted this; idlePending := idlePending this;
     hoverPointer := hoverPointer this |}.

(** React's update: [shouldComponentUpdate] decides whether
    [componentDidUpdate] runs; the new props and state are installed either
    way. *)
Definition update (this : Component) (nextProps : MapProps)
    (nextState : option MapState) : Component * list Call :=
  let prevProps := props this in
  let this' := withProps this nextProps nextState in
  if shouldComponentUpdate this nextProps nextState
  then (this', componentDidUpdate this' prevProps)
  else (this', []).

(** The host map calls the listeners registered for the event; before the
    mount there is none. *)
Definition dispatch (this : Component) (e : HostEvent) : Component * list Call :=
  if mounted this then
    match e with
    | Idle => if idlePending this then onIdle this else (this, [])
    | Click event => (this, onClickEvent this event)
    | MouseMove event passes =>
        (this,
         match hoverPointer this with
         | Some pointer => if passes then onMouseMove pointer event else []
         | None => []
         end)
    | BoundsChanged v => (this, onBoundsChangedEvent this v)
    end
  else (this, []).

(** Modelled from the spec: the overlay delivers every fault "through the
    single injected fault sink rather than raised to the caller"; a fault it
    reports is a call of the sink it was constructed with. *)
Definition report (this : Component) (error : Fault) : Component * list Call :=
  (this, faultSink this error).

Definition step (this : Component) (a : Action) : Component * list Call :=
  match a with
  | Update nextProps => update this nextProps (state this)
  | StateUpdate nextState => update this (props this) (Some nextState)
  | Host e => dispatch this e
  | Report error => report this error
  end.

Fixpoint run (this : Component) (actions : list Action) : Component * list Call :=
  match actions with
  | [] => (this, [])
  | a :: rest =>
      let (this', calls) := step this a in
      let (this'', calls') := run this' rest in
      (this'', calls ++ calls')
  end.

(** ** Reading a list of calls *)

(** The arguments of the calls of [updateData], in order. *)
Fixpoint updateDataCalls (calls : list Call) : list (list StyledFeatureData) :=
  match calls with
  | [] => []
  | Overlay_updateData layers :: rest => layers :: updateDataCalls rest
  | _ :: rest => updateDataCalls rest
  end.

(** The number of calls of [draw]. *)
Fixpoint drawCalls (calls : list Call) : nat :=
  match calls with
  | [] => 0
  | Overlay_draw :: rest => S (drawCalls rest)
  | _ :: rest => drawCalls rest
  end.

(** The number of overlays constructed. *)
Fixpoint overlaysBuilt (calls : list Call) : nat :=
  match calls with
  | [] => 0
  | NewCanvasOverlay :: rest => S (overlaysBuilt rest)
  | _ :: rest => overlaysBuilt rest
  end.

(** The errors passed to [onError], in order. *)
Fixpoint errorsDelivered (calls : list Call) : list Fault :=
  match calls with
  | [] => []
  | Props_onError _ error :: rest => error :: errorsDelivered rest
  | _ :: rest => errorsDelivered rest
  end.

(** Calls among which there is no [draw], no construction of an overlay and
    no [onError]. *)
Definition quiet (calls : list Call) : Prop :=
  drawCalls calls = 0 ∧ overlaysBuilt calls = 0 ∧ errorsDelivered calls = [].

(** The number of 'bounds_changed' events among the actions. *)
Fixpoint boundsChangedEvents (actions : list Action) : nat :=
  match actions with
  | [] => 0
  | Host (BoundsChanged _) :: rest => S (boundsChangedEvents rest)
  | _ :: rest => boundsChangedEvents rest
  end.

(** The faults the overlay reports among the actions, in order. *)
Fixpoint faultsReported (actions : list Action) : list Fault :=
  match actions with
  | [] => []
  | Report error :: rest => error :: faultsReported rest
  | _ :: rest => faultsReported rest
  end.

(** The number of calls of [onLoad]. *)
Fixpoint onLoadCalls (calls : list Call) : nat :=
  match calls with
  | [] => 0
  | Props_onLoad _ :: rest => S (onLoadCalls rest)
  | _ :: rest => onLoadCalls rest
  end.

(** The number of host maps created and of listeners registered. *)
Fixpoint mapsBuilt (calls : list Call) : nat :=
  match calls with
  | [] => 0
  | NewMap _ _ _ _ :: rest => S (mapsBuilt rest)
  | _ :: rest => mapsBuilt rest
  end.

Fixpoint listenersAdded (calls : list Call) : nat :=
  match calls with
  | [] => 0
  | Map_addListener _ _ :: rest => S (listenersAdded rest)
  | _ :: rest => listenersAdded rest
  end.

(** The number of 'idle' events among the actions. *)
Fixpoint idleEvents (actions : list Action) : nat :=
  match actions with
  | [] => 0
  | Host Idle :: rest => S (idleEvents rest)
  | _ :: rest => idleEvents rest
  end.

(** The layers the overlay holds after some calls, when it held [layers]
    before: those of the last [updateData]. *)
Fixpoint overlayData (layers : list StyledFeatureData) (calls : list Call)
    : list StyledFeatureData :=
  match calls with
  | [] => layers
  | Overlay_updateData layers' :: rest => overlayData layers' rest
  | _ :: rest => overlayData layers rest
  end.

(** Two arrays of layers that [didDataChange] does not tell apart, read from
    the current one to the one passed to the overlay. *)
Definition sameLayers (current passed : list StyledFeatureData) : Prop :=
  current = passed ∨
  (length current = length passed ∧
   ∀ i x y, current !! i = Some x → passed !! i = Some y →
     shallowEqual x y = true).

(** Construction, mount, the update for the state set at the end of the
    mount, then whatever happens to the mounted component. *)
Definition lifecycle (p : MapProps) (actions : list Action)
    : Component * list Call :=
  let (c0, t0) := construct p in
  let (c1, t1) := componentDidMount c0 in
  let (c2, t2) := run c1 (StateUpdate EmptyObject :: actions) in
  (c2, t0 ++ t1 ++ t2).

End Component.

End OverlayMap.

(** ** Sample inputs *)

Module CsvSamples.
Import CsvLoader.

(** A conversion in the place of [Number] for the samples: the value of a
    string of decimal digits (0 for the empty string), and [None], standing
    for NaN, for every other argument. *)
Fixpoint digitsValue (s : string) (acc : N) : option N :=
  match s with
  | EmptyString => Some acc
  | String a rest =>
      let d := Ascii.N_of_ascii a in
      if ((48 <=? d) && (d <=? 57))%N
      then digitsValue rest (10 * acc + (d - 48))%N
      else None
  end.

Definition digitsNumber (cell : option string) : option N :=
  match cell with
  | Some s => digitsValue s 0
  | None => None
  end.

Definition stop_id : Column :=
  {| name := "stop_id"; type := STRING; optional := None;
     destination := Some "id" |}.

Definition stop_lat : Column :=
  {| name := "stop_lat"; type := NUMERIC; optional := Some false;
     destination := None |}.

Definition wheelchair : Column :=
  {| name := "wheelchair"; type := BOOLEAN; optional := Some true;
     destination := None |}.

Definition stops : CSVSpec :=
  {| columns := [stop_id; stop_lat; wheelchair]; isOptional := None |}.

Definition optionalStops : CSVSpec :=
  {| columns := [stop_id; stop_lat; wheelchair]; isOptional := Some true |}.

(** Two chunks; the column [zone] is not in the spec. *)
Definition stopsFile : list (list Row) :=
  [ [ ["stop_id"; "zone"; "stop_lat"; "wheelchair"];
      ["s1"; "a"; "12"; "1"] ];
    [ ["s2"; "b"; "north"; "true"] ] ].

(** No [stop_lat] column. *)
Definition shortFile : list (list Row) :=
  [ [ ["stop_id"; "wheelchair"]; ["s1"; "1"] ] ].

Definition disk (filename : string) : option (list (list Row)) :=
  if String.eqb filename "stops.txt" then Some stopsFile
  else if String.eqb filename "short.txt" then Some shortFile
  else if String.eqb filename "blank.txt" then Some [ [ [""]; ["x"] ] ]
  else None.

Definition stopsHeader : Row := ["stop_id"; "zone"; "stop_lat"; "wheelchair"].

(** The records of [stopsFile] under [stops]. *)
Definition stopsRecords : list (gmap string (Value (option N))) :=
  [ {[ "id" := VString "s1"; "stop_lat" := VNumber (Some 12%N);
       "wheelchair" := VBoolean true ]};
    {[ "id" := VString "s2"; "stop_lat" := VNumber None;
       "wheelchair" := VBoolean false ]} ].

(** [stopsFile] read as a single chunk. *)
Definition diskWhole (filename : string) : option (list (list Row)) :=
  if String.eqb filename "stops.txt" then Some [concat stopsFile] else None.

(** The rows of [stopsFile] with the columns in another order. *)
Definition shuffledHeader : Row := ["wheelchair"; "stop_lat"; "zone"; "stop_id"].

Definition shuffledFile : list (list Row) :=
  [ [ shuffledHeader;
      ["1"; "12"; "a"; "s1"];
      ["true"; "north"; "b"; "s2"] ] ].

Definition diskShuffled (filename : string) : option (list (list Row)) :=
  if String.eqb filename "shuffled.txt" then Some shuffledFile else None.

(** A spec with the same field name twice. *)
Definition idTwice : CSVSpec :=
  {| columns :=
       [ stop_id;
         {| name := "id"; type := STRING; optional := None;
            destination := None |} ];
     isOptional := None |}.



Definition label : Column :=
  {| name := "label"; type := STRING; optional := None;
     destination := Some "__proto__" |}.

Definition hiddenLabel : CSVSpec := {| columns := [label]; isOptional := None |}.

Definition flagsHeader : Row := ["flag"; "count"; "label"].

Definition flagsFile : list (list Row) :=
  [ [ flagsHeader; ["1"; "many"; "north"] ] ].

Definition flagsDisk (filename : string) : option (list (list Row)) :=
  if String.eqb filename "flags.txt" then Some flagsFile else None.







(** The records of [stopsFile] under [stops] with [ToNumber written]. *)
Definition stopsRecordsWritten
    : list (gmap string (Value (StringToNumber.JSNumber string))) :=
  [ {[ "id" := VString "s1";
       "stop_lat" := VNumber (StringToNumber.Num "12");
       "wheelchair" := VBoolean true ]};
    {[ "id" := VString "s2";
       "stop_lat" := VNumber StringToNumber.NaN;
       "wheelchair" := VBoolean false ]} ].

(** Two columns whose field name is the empty string. *)
Definition blankTwice : CSVSpec :=
  {| columns :=
       [ {| name := ""; type := STRING; optional := None; destination := None |};
         {| name := ""; type := BOOLEAN; optional := None; destination := None |} ];
     isOptional := None |}.

End CsvSamples.

Module OverlaySamples.
Import OverlayMap.

(** Points are pairs of numbers; layers, features, faults and handlers are
    named. *)
#[export] Instance types : Types :=
  {| LatLng := nat * nat; Zoom := nat; Feature := string;
     StyledFeatureData := string; Fault := string; Handler := string;
     MapTypeStyle := string |}.

(** One triangle in layer 0, hit at the point (1, 1) only. *)
#[export] Instance helpers : Helpers :=
  {| TOP_RIGHT := 3;
     shallowEqual := String.eqb;
     shallowEqualProps := λ _ _, false;
     shallowEqualState := λ a b, bool_decide (is_Some a ↔ is_Some b);
     isEqual := λ a b,
       bool_decide (center a = center b)
       && bool_decide (zoomLevel a = zoomLevel b);
     hitTest := λ p,
       if bool_decide (p = (1, 1)) then Some (0, "triangleA") else None |}.

Definition city : MapProps :=
  {| view := {| center := (40, 74); zoomLevel := 12 |};
     data := ["routes"; "stops"];
     onLoad := None;
     onClick := Some "handleClick";
     onMouseOverPointer := Some "pointer";
     onError := "handleError";
     onBoundsChanged := Some "handleBounds";
     mapStyles := None; minZoom := None; maxZoom := None;
     controlPosition := None; hideControls := None |}.

(** The same props with another second layer. *)
Definition cityLater : MapProps :=
  {| view := view city;
     data := ["routes"; "stations"];
     onLoad := onLoad city;
     onClick := onClick city;
     onMouseOverPointer := onMouseOverPointer city;
     onError := onError city;
     onBoundsChanged := onBoundsChanged city;
     mapStyles := None; minZoom := None; maxZoom := None;
     controlPosition := None; hideControls := None |}.

(** Other helpers: layers are shallow-equal when their names have the same
    length, and props when they hold the same data. *)
Definition looseHelpers : Helpers :=
  {| TOP_RIGHT := 3;
     shallowEqual := λ x y, Nat.eqb (String.length x) (String.length y);
     shallowEqualProps := λ q q',
       bool_decide (@eq (list string) (data q) (data q'));
     shallowEqualState := λ a b, bool_decide (is_Some a ↔ is_Some b);
     isEqual := λ a b,
       bool_decide (center a = center b)
       && bool_decide (zoomLevel a = zoomLevel b);
     hitTest := λ p,
       if bool_decide (p = (1, 1)) then Some (0, "triangleA") else None |}.

(** Props whose layers differ from those of [city] but have names of the
    same lengths, and the same props without the click handler. *)
Definition cityRenamed : MapProps :=
  {| view := view city;
     data := ["trains"; "roads"];
     onLoad := onLoad city;
     onClick := onClick city;
     onMouseOverPointer := onMouseOverPointer city;
     onError := onError city;
     onBoundsChanged := onBoundsChanged city;
     mapStyles := None; minZoom := None; maxZoom := None;
     controlPosition := None; hideControls := None |}.

Definition cityQuiet : MapProps :=
  {| view := view city;
     data := ["trains"; "roads"];
     onLoad := onLoad city;
     onClick := None;
     onMouseOverPointer := onMouseOverPointer city;
     onError := onError city;
     onBoundsChanged := onBoundsChanged city;
     mapStyles := None; minZoom := None; maxZoom := None;
     controlPosition := None; hideControls := None |}.

(** The component after construction and mount with the props [city]. *)
Definition cityMap : Component :=
  (componentDidMount (construct city).1).1.

(** A click on the triangle and a click far from it. *)
Definition onTriangle : MouseEvent := {| latLng := (1, 1) |}.
Definition farAway : MouseEvent := {| latLng := (1000, 1000) |}.

Definition window : Viewport :=
  {| bounds_northeast := (41, 75); bounds_southwest := (39, 73);
     map_center := (40, 74); map_zoom := 12 |}.

End OverlaySamples.

(** * Properties of the CSV loader *)

Module CsvLoaderFacts.
Import CsvLoader.

(** ** The helpers *)

Lemma indexOf_lookup (h : Row) (x : string) (n : nat) :
  indexOf h x = Some n → h !! n = Some x.
Proof.
  revert n. induction h as [|y ys IH]; intros n; simpl; [done|].
  destruct (String.eqb_spec y x) as [->|Hne].
  - by intros [= <-].
  - destruct (indexOf ys x) as [m|] eqn:E; simpl; [|done].
    intros [= <-]. simpl. by apply IH.
Qed.

Lemma indexOf_None (h : Row) (x : string) :
  indexOf h x = None ↔ x ∉ h.
Proof.
  induction h as [|y ys IH]; simpl.
  - split; [intros _; apply not_elem_of_nil | done].
  - destruct (String.eqb_spec y x) as [->|Hne].
    + split; [done|]. intros H. exfalso. apply H. left.
    + rewrite not_elem_of_cons, <- IH.
      destruct (indexOf ys x); simpl.
      * split; [done | by intros [_ ?]].
      * split; [intros _; split; [congruence | done] | done].
Qed.

Lemma extractColumnMapping_Ok (cols : list Column) (header : option Row)
    (filename : option string) (out : list IndexedColumn) :
  extractColumnMapping cols header filename = Ok out →
  ∀ ic, ic ∈ out →
    base ic ∈ cols ∧ ∃ h, header = Some h ∧ indexOf h (name (base ic)) = Some (number ic).
Proof.
  revert out. induction cols as [|c rest IH]; intros out; simpl.
  - intros [= <-] ic Hic. by apply elem_of_nil in Hic.
  - destruct header as [h|]; [|done].
    destruct (indexOf h (name c)) as [n|] eqn:E.
    + destruct (extractColumnMapping rest (Some h) filename) as [out'|] eqn:E'; [|done].
      intros [= <-] ic Hic. apply elem_of_cons in Hic as [->|Hic].
      * split; [left|]. exists h. by simpl.
      * destruct (IH _ eq_refl ic Hic) as [? ?]. split; [by right | done].
    + destruct (truthyBool (optional c)); simpl; [|done].
      intros H ic Hic. destruct (IH _ H ic Hic) as [? ?]. split; [by right | done].
Qed.

Lemma extractColumnMapping_complete (cols : list Column) (h : Row)
    (filename : option string) (out : list IndexedColumn) :
  extractColumnMapping cols (Some h) filename = Ok out →
  ∀ c n, c ∈ cols → indexOf h (name c) = Some n →
    {| base := c; number := n |} ∈ out.
Proof.
  revert out. induction cols as [|c rest IH]; intros out; simpl.
  - intros _ c n Hc. by apply elem_of_nil in Hc.
  - destruct (indexOf h (name c)) as [m|] eqn:E.
    + destruct (extractColumnMapping rest (Some h) filename) as [out'|] eqn:E'; [|done].
      intros [= <-] c' n Hc' Hn. apply elem_of_cons in Hc' as [->|Hc'].
      * rewrite E in Hn. injection Hn as <-. left.
      * right. by apply (IH _ eq_refl).
    + destruct (truthyBool (optional c)); simpl; [|done].
      intros H c' n Hc' Hn. apply elem_of_cons in Hc' as [->|Hc'].
      * congruence.
      * by apply (IH _ H).
Qed.

(** The mapping fails exactly when a required column is missing (or, with no
    header at all, when the spec has a column). *)
Lemma extractColumnMapping_required (cols : list Column) (h : Row)
    (filename : option string) (c : Column) :
  c ∈ cols → truthyBool (optional c) = false → name c ∉ h →
  ∃ c', c' ∈ cols ∧ truthyBool (optional c') = false ∧ (name c' ∉ h) ∧
    extractColumnMapping cols (Some h) filename
      = Throw (Error (missingColumnMessage c' h filename)).
Proof.
  induction cols as [|c0 rest IH]; intros Hc Hopt Hmiss.
  - by apply elem_of_nil in Hc.
  - simpl. destruct (indexOf h (name c0)) as [n|] eqn:E.
    + apply elem_of_cons in Hc as [->|Hc].
      * apply indexOf_None in Hmiss. congruence.
      * destruct (IH Hc Hopt Hmiss) as (c' & Hc' & ? & ? & ->).
        exists c'. split; [by right | done].
    + destruct (truthyBool (optional c0)) eqn:Eo; simpl.
      * apply elem_of_cons in Hc as [->|Hc]; [congruence|].
        destruct (IH Hc Hopt Hmiss) as (c' & Hc' & ? & ? & ->).
        exists c'. split; [by right | done].
      * exists c0. split; [left|]. by rewrite <- indexOf_None.
Qed.

Lemma extractColumnMapping_present (cols : list Column) (h : Row)
    (filename : option string) :
  (∀ c, c ∈ cols → truthyBool (optional c) = false → name c ∈ h) →
  ∃ out, extractColumnMapping cols (Some h) filename = Ok out.
Proof.
  induction cols as [|c rest IH]; intros Hall; simpl; [by eexists|].
  destruct IH as [out Hout].
  { intros c' Hc'. apply Hall. by right. }
  rewrite Hout. destruct (indexOf h (name c)) as [n|] eqn:E; [by eexists|].
  destruct (truthyBool (optional c)) eqn:Eo; simpl; [by eexists|].
  exfalso. apply indexOf_None in E. apply E. apply Hall; [left | done].
Qed.

Lemma lookup_map {A B : Type} (f : A → B) (l : list A) (i : nat) :
  map f l !! i = f <$> l !! i.
Proof.
  revert i. induction l as [|x l IH]; intros [|i]; simpl; done.
Qed.

Lemma elem_of_map {A B : Type} (f : A → B) (l : list A) (y : B) :
  y ∈ map f l ↔ ∃ x, y = f x ∧ x ∈ l.
Proof.
  induction l as [|x l IH]; simpl.
  - split; [intros Hy; by apply elem_of_nil in Hy|].
    intros (x & _ & Hx). by apply elem_of_nil in Hx.
  - rewrite elem_of_cons, IH. split.
    + intros [-> | (x' & -> & Hx')].
      * exists x. split; [done | left].
      * exists x'. split; [done | by right].
    + intros (x' & -> & Hx'). apply elem_of_cons in Hx' as [-> | Hx'].
      * by left.
      * right. by exists x'.
Qed.

Lemma findDuplicateFrom_None (seen xs : list string) :
  findDuplicateFrom seen xs = None ↔ NoDup xs ∧ ∀ x, x ∈ xs → x ∉ seen.
Proof.
  revert seen. induction xs as [|x rest IH]; intros seen; simpl.
  - split; [|done]. intros _. split; [constructor|]. intros x Hx.
    by apply elem_of_nil in Hx.
  - case_bool_decide as Hin.
    + split; [done|]. intros [_ H]. exfalso. apply (H x); [left | done].
    + rewrite IH, NoDup_cons. split.
      * intros [Hnd Hfresh]. split; [split; [|done]|].
        -- intros Hx. apply (Hfresh x Hx). left.
        -- intros y Hy. apply elem_of_cons in Hy as [->|Hy]; [done|].
           intros Hs. apply (Hfresh y Hy). by right.
      * intros [[Hx Hnd] Hfresh]. split; [done|].
        intros y Hy Hs. apply elem_of_cons in Hs as [->|Hs]; [done|].
        apply (Hfresh y); [by right | done].
Qed.

Lemma findDuplicate_None (xs : list string) :
  findDuplicate xs = None ↔ NoDup xs.
Proof.
  unfold findDuplicate. rewrite findDuplicateFrom_None. split; [by intros [? _]|].
  intros Hnd. split; [done|]. intros x _. apply not_elem_of_nil.
Qed.

Lemma findDuplicateFrom_Some (seen xs : list string) (d : string) :
  findDuplicateFrom seen xs = Some d → d ∈ xs.
Proof.
  revert seen. induction xs as [|x rest IH]; intros seen; simpl; [done|].
  case_bool_decide.
  - intros [= ->]. left.
  - intros Hd. right. by eapply IH.
Qed.

Lemma truthy_findSpecError (spec : CSVSpec) :
  truthyString (findSpecError spec) = false ↔ findSpecError spec = None.
Proof.
  unfold findSpecError.
  destruct (truthyString (findDuplicate _)); simpl; split; done.
Qed.

Section Loading.

Context {JSNum : Type} (Number : option string -> JSNum).
Context (fs : string -> option (list (list Row))).

(** ** Building one record *)

Lemma assign_proto (row : Row) (o : gmap string (Value JSNum))
    (c : IndexedColumn) :
  keyOf c = "__proto__" → assign Number row o c = o.
Proof. intros Hkey. unfold assign. by rewrite Hkey. Qed.

Lemma assign_insert (row : Row) (o : gmap string (Value JSNum))
    (c : IndexedColumn) :
  keyOf c ≠ "__proto__" →
  assign Number row o c = <[keyOf c := valueOf Number row c]> o.
Proof.
  intros Hkey. unfold assign. by destruct (String.eqb_spec (keyOf c) "__proto__").
Qed.

Lemma foldl_assign_origin (row : Row) (cols : list IndexedColumn)
    (o : gmap string (Value JSNum)) (k : string) (v : Value JSNum) :
  foldl (assign Number row) o cols !! k = Some v →
  o !! k = Some v ∨ ∃ ic, ic ∈ cols ∧ k = keyOf ic ∧ v = valueOf Number row ic.
Proof.
  revert o. induction cols as [|c cs IH]; intros o; simpl; [by left|].
  intros Hk. destruct (IH _ Hk) as [Ho | (ic & Hic & ? & ?)].
  - destruct (decide (keyOf c = "__proto__")) as [Hproto | Hproto].
    { rewrite assign_proto in Ho by done. by left. }
    rewrite assign_insert, lookup_insert in Ho by done. case_decide as Hkey.
    + right. exists c. split; [left|]. split; [done|].
      by injection Ho as <-.
    + by left.
  - right. exists ic. split; [by right | done].
Qed.

(** No record has a field under the key [__proto__]. *)
Lemma foldl_assign_no_proto (row : Row) (cols : list IndexedColumn)
    (o : gmap string (Value JSNum)) :
  o !! "__proto__" = None →
  foldl (assign Number row) o cols !! "__proto__" = None.
Proof.
  revert o. induction cols as [|c cs IH]; intros o Ho; simpl; [done|].
  apply IH. destruct (decide (keyOf c = "__proto__")) as [Hproto | Hproto].
  - by rewrite assign_proto.
  - by rewrite assign_insert, lookup_insert_ne.
Qed.

Lemma rowToObject_no_proto (row : Row) (cols : list IndexedColumn) :
  rowToObject Number cols row !! "__proto__" = None.
Proof. apply foldl_assign_no_proto, lookup_empty. Qed.

Lemma foldl_assign_last (row : Row) (cols : list IndexedColumn)
    (o : gmap string (Value JSNum)) (k : string) (v : Value JSNum) :
  k ≠ "__proto__" →
  (o !! k = Some v ∨ ∃ ic, ic ∈ cols ∧ keyOf ic = k) →
  (∀ ic, ic ∈ cols → keyOf ic = k → valueOf Number row ic = v) →
  foldl (assign Number row) o cols !! k = Some v.
Proof.
  intros Hk. revert o. induction cols as [|c cs IH]; intros o Hsrc Hagree; simpl.
  - destruct Hsrc as [? | (ic & Hic & _)]; [done|]. by apply elem_of_nil in Hic.
  - apply IH.
    + destruct (decide (keyOf c = k)) as [Hkey | Hkey].
      * left. rewrite assign_insert by congruence.
        rewrite Hkey, lookup_insert_eq. f_equal. apply Hagree; [left | done].
      * assert (assign Number row o c !! k = o !! k) as Hsame.
        { destruct (decide (keyOf c = "__proto__")) as [Hproto | Hproto].
          - by rewrite assign_proto.
          - by rewrite assign_insert, lookup_insert_ne. }
        rewrite Hsame.
        destruct Hsrc as [? | (ic & Hic & Hic')]; [by left|].
        apply elem_of_cons in Hic as [-> | Hic]; [done|].
        right. by exists ic.
    + intros ic Hic. apply Hagree. by right.
Qed.

Lemma rowToObject_origin (row : Row) (cols : list IndexedColumn)
    (k : string) (v : Value JSNum) :
  rowToObject Number cols row !! k = Some v →
  ∃ ic, ic ∈ cols ∧ k = keyOf ic ∧ v = valueOf Number row ic.
Proof.
  intros Hk. destruct (foldl_assign_origin _ _ _ _ _ Hk) as [He | ?]; [|done].
  by rewrite lookup_empty in He.
Qed.

Lemma rowToObject_field (row : Row) (cols : list IndexedColumn)
    (ic : IndexedColumn) :
  keyOf ic ≠ "__proto__" →
  ic ∈ cols →
  (∀ ic', ic' ∈ cols → keyOf ic' = keyOf ic →
     valueOf Number row ic' = valueOf Number row ic) →
  rowToObject Number cols row !! keyOf ic = Some (valueOf Number row ic).
Proof.
  intros Hkey Hic Hagree. apply foldl_assign_last; [done| |done].
  right. by exists ic.
Qed.

Lemma keyOf_addDestination (ic : IndexedColumn) :
  keyOf (addDestination ic) = fieldName (base ic).
Proof. done. Qed.

Lemma valueOf_addDestination (row : Row) (ic : IndexedColumn) :
  valueOf Number row (addDestination ic) = valueOf Number row ic.
Proof. done. Qed.

(** ** Running the parser over the file *)

Lemma parseCSV_following (filename : string) (spec : CSVSpec)
    (cols : list IndexedColumn) (chunks : list (list Row))
    (vs : list (gmap string (Value JSNum))) :
  parseCSV chunks (onRows Number filename spec)
      {| isFirst := false; indexed := Some cols; values := vs |}
  = Ok {| isFirst := false; indexed := Some cols;
          values := vs ++ map (rowToObject Number cols) (concat chunks) |}.
Proof.
  revert vs. induction chunks as [|rows rest IH]; intros vs; simpl.
  - by rewrite app_nil_r.
  - unfold onRows at 1. simpl. rewrite IH. by rewrite map_app, app_assoc.
Qed.

Lemma loadCSV_parsed (filename : string) (spec : CSVSpec)
    (rows : list Row) (rest : list (list Row)) :
  findSpecError spec = None →
  fs filename = Some (rows :: rest) →
  loadCSV Number fs filename spec =
    ([FileExists filename; ParseCSV filename],
     match extractColumnMapping (columns spec) (rows !! 0) (Some filename) with
     | Ok cols =>
         Resolved (map (rowToObject Number (addDestinations cols))
                       (dataRows (rows :: rest)))
     | Throw e => Rejected (Raised e)
     end).
Proof.
  intros Hspec Hfile. unfold loadCSV. rewrite Hspec, Hfile. simpl.
  unfold onRows at 1. simpl.
  destruct (extractColumnMapping _ _ _) as [cols|e]; [|done].
  simpl. rewrite parseCSV_following. simpl. by rewrite map_app.
Qed.

Lemma loadCSV_no_chunk (filename : string) (spec : CSVSpec) :
  findSpecError spec = None →
  fs filename = Some [] →
  loadCSV Number fs filename spec =
    ([FileExists filename; ParseCSV filename], Resolved []).
Proof. intros Hspec Hfile. unfold loadCSV. by rewrite Hspec, Hfile. Qed.

Lemma loadCSV_spec_error (filename : string) (spec : CSVSpec) (error : string) :
  findSpecError spec = Some error →
  loadCSV Number fs filename spec = ([], Rejected (Message error)).
Proof.
  intros Hspec. unfold loadCSV.
  destruct (truthyString (findSpecError spec)) eqn:E.
  - by rewrite Hspec.
  - apply truthy_findSpecError in E. congruence.
Qed.

(** What a resolved load returns: the records of the data rows, built from
    the columns of the spec that the header has. *)
Lemma loadCSV_resolved (filename : string) (spec : CSVSpec)
    (records : list (gmap string (Value JSNum))) :
  (loadCSV Number fs filename spec).2 = Resolved records →
  findSpecError spec = None ∧
  (records = [] ∨
   ∃ chunks cols, fs filename = Some chunks ∧
     extractColumnMapping (columns spec) (headerRow chunks) (Some filename)
       = Ok cols ∧
     records = map (rowToObject Number (addDestinations cols)) (dataRows chunks)).
Proof.
  destruct (findSpecError spec) as [error|] eqn:Hspec.
  { by rewrite (loadCSV_spec_error _ _ _ Hspec). }
  intros Hres. split; [done|].
  destruct (fs filename) as [[|rows rest]|] eqn:Hfile.
  - rewrite (loadCSV_no_chunk _ _ Hspec Hfile) in Hres. left.
    by injection Hres as <-.
  - rewrite (loadCSV_parsed _ _ _ _ Hspec Hfile) in Hres. simpl in Hres.
    destruct (extractColumnMapping _ _ _) as [cols|e] eqn:Hcols; [|done].
    right. exists (rows :: rest), cols. split; [done|]. split; [done|].
    by injection Hres as <-.
  - unfold loadCSV in Hres. rewrite Hspec, Hfile in Hres. simpl in Hres.
    destruct (truthyBool (isOptional spec)); [|done].
    left. by injection Hres as <-.
Qed.

Lemma headerRow_cons (rows : list Row) (rest : list (list Row)) :
  headerRow (rows :: rest) = rows !! 0.
Proof. done. Qed.

(** ** The claims about the loader *)

(** C1: when a column that the spec does not mark optional is absent from the
    header row of the file, the load fails as a whole: the promise is
    rejected, whatever the rows that follow, and no record is returned. With
    a spec free of errors the rejection is the error thrown for a required
    column that the header lacks. *)
Theorem loadCSV_missing_required_column (filename : string) (spec : CSVSpec)
    (chunks : list (list Row)) (header : Row) (c : Column) :
  fs filename = Some chunks →
  headerRow chunks = Some header →
  c ∈ columns spec →
  truthyBool (optional c) = false →
  name c ∉ header →
  ∃ r, (loadCSV Number fs filename spec).2 = Rejected r ∧
    (findSpecError spec = None →
     ∃ c', c' ∈ columns spec ∧ truthyBool (optional c') = false ∧
       (name c' ∉ header) ∧
       r = Raised (Error (missingColumnMessage c' header (Some filename)))).
Proof.
  intros Hfile Hheader Hc Hopt Hmiss.
  destruct (findSpecError spec) as [error|] eqn:Hspec.
  { exists (Message error). by rewrite (loadCSV_spec_error _ _ _ Hspec). }
  destruct chunks as [|rows rest]; [done|].
  rewrite headerRow_cons in Hheader.
  rewrite (loadCSV_parsed _ _ _ _ Hspec Hfile), Hheader. simpl.
  destruct (extractColumnMapping_required (columns spec) header (Some filename)
              c Hc Hopt Hmiss) as (c' & Hc' & Hopt' & Hmiss' & ->).
  eexists. split; [done|]. intros _. by exists c'.
Qed.

(** A resolved load, seen from one column of the spec that the header has.
    The record of each data row has no field under [__proto__]; under any
    other field name it holds the value converted from the row's cell in the
    column, provided no other column of the spec writes the same field. *)
Lemma loadCSV_field (filename : string) (spec : CSVSpec)
    (chunks : list (list Row)) (header : Row)
    (records : list (gmap string (Value JSNum))) (c : Column) (n : nat) :
  fs filename = Some chunks →
  headerRow chunks = Some header →
  (loadCSV Number fs filename spec).2 = Resolved records →
  c ∈ columns spec →
  indexOf header (name c) = Some n →
  ∀ i row, dataRows chunks !! i = Some row →
    ∃ o, records !! i = Some o ∧
      o !! "__proto__" = None ∧
      (fieldName c ≠ "__proto__" →
       (∀ c', c' ∈ columns spec → fieldName c' = fieldName c → c' = c) →
       o !! fieldName c = Some (cellValue Number (type c) (row !! n))).
Proof.
  intros Hfile Hheader Hres Hc Hn i row Hrow.
  destruct (loadCSV_resolved _ _ _ Hres) as [Hspec _].
  destruct chunks as [|rows rest]; [done|].
  rewrite (loadCSV_parsed _ _ _ _ Hspec Hfile) in Hres. simpl in Hres.
  rewrite headerRow_cons in Hheader. rewrite Hheader in Hres.
  destruct (extractColumnMapping _ _ _) as [cols|e] eqn:Hcols; [|done].
  injection Hres as <-.
  exists (rowToObject Number (addDestinations cols) row). split.
  { simpl in Hrow. by rewrite lookup_map, Hrow. }
  split; [apply rowToObject_no_proto|].
  intros Hproto Hsole.
  pose (ic := {| base := c; number := n |}).
  change (fieldName c) with (keyOf (addDestination ic)).
  change (cellValue Number (type c) (row !! n))
    with (valueOf Number row (addDestination ic)).
  apply rowToObject_field.
  - done.
  - apply elem_of_map. exists ic. split; [done|].
    by apply (extractColumnMapping_complete _ _ _ _ Hcols).
  - intros ic' Hic' Hkey. apply elem_of_map in Hic' as (ic0 & -> & Hic0).
    destruct (extractColumnMapping_Ok _ _ _ _ Hcols ic0 Hic0)
      as (Hbase & h & [= <-] & Hn0).
    rewrite !keyOf_addDestination in Hkey. simpl in Hkey.
    apply Hsole in Hkey; [|done].
    rewrite !valueOf_addDestination. unfold valueOf. simpl.
    rewrite Hkey in *. by replace (number ic0) with n by congruence.
Qed.


(** C3: with a spec free of errors and a file that does not exist, the load
    resolves to the empty list when [isOptional] is true and is rejected when
    it is false or absent; either way the only call made is the existence
    test, and the parser is not run. *)
Theorem loadCSV_missing_file (filename : string) (spec : CSVSpec) :
  findSpecError spec = None →
  fs filename = None →
  (isOptional spec = Some true →
     loadCSV Number fs filename spec = ([FileExists filename], Resolved []))
  ∧ (isOptional spec = Some false ∨ isOptional spec = None →
     loadCSV Number fs filename spec =
       ([FileExists filename],
        Rejected (Message ("Unable to load " +:+ filename
                             +:+ ": file does not exist.")))).
Proof.
  intros Hspec Hfile. unfold loadCSV. rewrite Hspec, Hfile. simpl.
  split.
  - by intros ->.
  - by intros [-> | ->].
Qed.

(** C4: every field of every record of a loaded file comes from a column of
    the spec: the key is the column's field name (its destination, or its
    name when it has none or an empty one) and the value is converted from
    the cell at the position where the header holds that column's name. A
    column of the header that the spec does not name is never read. *)
Theorem records_hold_only_spec_fields (filename : string) (spec : CSVSpec)
    (records : list (gmap string (Value JSNum))) :
  (loadCSV Number fs filename spec).2 = Resolved records →
  ∀ o k v, o ∈ records → o !! k = Some v →
    ∃ chunks header c n row,
      fs filename = Some chunks ∧ headerRow chunks = Some header ∧
      c ∈ columns spec ∧ header !! n = Some (name c) ∧
      row ∈ dataRows chunks ∧
      k = fieldName c ∧ v = cellValue Number (type c) (row !! n) ∧
      (destination c = None → k = name c) ∧
      (∀ d, destination c = Some d → d ≠ "" → k = d) ∧
      (∀ j h, header !! j = Some h →
         (∀ c', c' ∈ columns spec → name c' ≠ h) → j ≠ n).
Proof.
  intros Hres o k v Ho Hk.
  destruct (loadCSV_resolved _ _ _ Hres) as [_ [-> | (chunks & cols & Hfile & Hcols & ->)]].
  { by apply elem_of_nil in Ho. }
  apply elem_of_map in Ho as (row & -> & Hrow).
  apply rowToObject_origin in Hk as (ic & Hic & -> & ->).
  apply elem_of_map in Hic as (ic0 & -> & Hic0).
  destruct (extractColumnMapping_Ok _ _ _ _ Hcols ic0 Hic0)
    as (Hbase & header & Hheader & Hn).
  exists chunks, header, (base ic0), (number ic0), row.
  rewrite keyOf_addDestination, valueOf_addDestination.
  pose proof (indexOf_lookup _ _ _ Hn) as Hat.
  repeat split; try done.
  - unfold fieldName. by intros ->.
  - unfold fieldName. intros d -> Hd. simpl.
    destruct (String.eqb_spec d ""); [done|]. done.
  - intros j h Hj Hnone ->. rewrite Hat in Hj. injection Hj as <-.
    by apply (Hnone (base ic0)).
Qed.


(** A repeated field name that [findDuplicate] reports and that is not the
    empty string is rejected before any call to the file system. *)
Lemma loadCSV_duplicate_field (filename : string) (spec : CSVSpec) (d : string) :
  findDuplicate (map fieldName (columns spec)) = Some d →
  d ≠ "" →
  loadCSV Number fs filename spec =
    ([], Rejected (Message ("Duplicate field in CSV spec: " +:+ d))).
Proof.
  intros Hdupe Hd. apply loadCSV_spec_error.
  unfold findSpecError. rewrite Hdupe. simpl.
  by destruct (String.eqb_spec d "").
Qed.

End Loading.

(** ** Numeric cells *)

(** What the recogniser of numeric strings answers on some cells. *)
Lemma isStringNumericLiteral_samples :
  map StringToNumber.isStringNumericLiteral
    [""; " 12 "; "-5.5"; ".5"; "5."; "1e3"; "+Infinity"; "0x1F"; "0b101"]
  = [true; true; true; true; true; true; true; true; true] ∧
  map StringToNumber.isStringNumericLiteral
    ["north"; "12px"; "1,5"; "1e"; "."; "++1"; "infinity"; "-0x10"; "1_000"]
  = [false; false; false; false; false; false; false; false; false].
Proof. split; reflexivity. Qed.


(** ** The claims on sample files *)

Lemma mem_stops (P : Column → Prop) :
  P CsvSamples.stop_id → P CsvSamples.stop_lat → P CsvSamples.wheelchair →
  ∀ c, c ∈ columns CsvSamples.stops → P c.
Proof.
  intros H1 H2 H3 c Hc. simpl in Hc.
  apply elem_of_cons in Hc as [-> | Hc]; [done|].
  apply elem_of_cons in Hc as [-> | Hc]; [done|].
  apply elem_of_cons in Hc as [-> | Hc]; [done|].
  by apply elem_of_nil in Hc.
Defined.

Lemma loadCSV_missing_required_column_witness :
  (CsvSamples.disk "short.txt" = Some CsvSamples.shortFile ∧
   CsvSamples.stop_lat ∈ columns CsvSamples.stops ∧
   truthyBool (optional CsvSamples.stop_lat) = false ∧
   name CsvSamples.stop_lat ∉ ["stop_id"; "wheelchair"]) ∧
  ∃ r, (loadCSV CsvSamples.digitsNumber CsvSamples.disk "short.txt"
          CsvSamples.stops).2 = Rejected r ∧
    (findSpecError CsvSamples.stops = None →
     ∃ c', c' ∈ columns CsvSamples.stops ∧ truthyBool (optional c') = false ∧
       (name c' ∉ ["stop_id"; "wheelchair"]) ∧
       r = Raised (Error (missingColumnMessage c' ["stop_id"; "wheelchair"]
                            (Some "short.txt")))).
Proof.
  assert (CsvSamples.stop_lat ∈ columns CsvSamples.stops) as Hc
    by (right; left).
  assert (name CsvSamples.stop_lat ∉ ["stop_id"; "wheelchair"]) as Hmiss
    by (apply indexOf_None; reflexivity).
  split; [repeat split; done|].
  apply (loadCSV_missing_required_column CsvSamples.digitsNumber CsvSamples.disk
           "short.txt" CsvSamples.stops CsvSamples.shortFile
           ["stop_id"; "wheelchair"] CsvSamples.stop_lat);
    [reflexivity | reflexivity | exact Hc | reflexivity | exact Hmiss].
Defined.



Lemma loadCSV_missing_file_witness :
  (findSpecError CsvSamples.optionalStops = None ∧
   CsvSamples.disk "nowhere.txt" = None) ∧
  loadCSV CsvSamples.digitsNumber CsvSamples.disk "nowhere.txt"
    CsvSamples.optionalStops = ([FileExists "nowhere.txt"], Resolved []).
Proof.
  split; [split; reflexivity|].
  apply (loadCSV_missing_file CsvSamples.digitsNumber CsvSamples.disk
           "nowhere.txt" CsvSamples.optionalStops);
    reflexivity.
Defined.

Lemma records_hold_only_spec_fields_witness :
  (loadCSV CsvSamples.digitsNumber CsvSamples.disk "stops.txt"
     CsvSamples.stops).2 = Resolved CsvSamples.stopsRecords ∧
  ∀ o k v, o ∈ CsvSamples.stopsRecords → o !! k = Some v →
    ∃ chunks header c n row,
      CsvSamples.disk "stops.txt" = Some chunks ∧
      headerRow chunks = Some header ∧
      c ∈ columns CsvSamples.stops ∧ header !! n = Some (name c) ∧
      row ∈ dataRows chunks ∧
      k = fieldName c ∧
      v = cellValue CsvSamples.digitsNumber (type c) (row !! n) ∧
      (destination c = None → k = name c) ∧
      (∀ d, destination c = Some d → d ≠ "" → k = d) ∧
      (∀ j h, header !! j = Some h →
         (∀ c', c' ∈ columns CsvSamples.stops → name c' ≠ h) → j ≠ n).
Proof.
  split; [reflexivity|].
  apply (records_hold_only_spec_fields CsvSamples.digitsNumber CsvSamples.disk
           "stops.txt" CsvSamples.stops CsvSamples.stopsRecords).
  reflexivity.
Defined.



(** C9, at the spec whose two columns both have the empty field name: the
    two columns resolve to the same field, [findDuplicate] returns the empty
    string, the test [if (dupe)] takes it for "no duplicate", and the load
    goes on to the file system and resolves with the records of the file. *)
Theorem loadCSV_blank_duplicate_not_rejected {JSNum : Type}
    (Number : option string -> JSNum) :
  map fieldName (columns CsvSamples.blankTwice) = [""; ""] ∧
  findDuplicate (map fieldName (columns CsvSamples.blankTwice)) = Some "" ∧
  findSpecError CsvSamples.blankTwice = None ∧
  loadCSV Number CsvSamples.disk "blank.txt" CsvSamples.blankTwice =
    ([FileExists "blank.txt"; ParseCSV "blank.txt"],
     Resolved [ {[ "" := VBoolean false ]} ]).
Proof.
  repeat split; reflexivity.
Qed.

End CsvLoaderFacts.

(** * Properties of the OverlayMap component *)

Module OverlayMapFacts.
Import OverlayMap.

Section Facts.

Context {T : Types} {U : Helpers}.

(** ** The comparison of the data prop *)

Lemma anyNotShallowEqual_zip (xs ys : list StyledFeatureData) :
  anyNotShallowEqual (zip xs ys) = true ↔
  ∃ i x y, xs !! i = Some x ∧ ys !! i = Some y ∧ shallowEqual x y = false.
Proof.
  revert ys. induction xs as [|x xs IH]; intros ys.
  - simpl. split; [done|]. by intros (i & ? & ? & ? & _).
  - destruct ys as [|y ys]; simpl.
    + split; [done|]. by intros (i & ? & ? & _ & ? & _).
    + destruct (shallowEqual x y) eqn:E; simpl.
      * rewrite IH. split.
        -- intros (i & x' & y' & ? & ? & ?). by exists (S i), x', y'.
        -- intros ([|i] & x' & y' & Hx & Hy & Hne); simpl in *.
           ++ congruence.
           ++ by exists i, x', y'.
      * split; [|done]. intros _. by exists 0, x, y.
Qed.

Lemma didDataChange_true (prevData data : list StyledFeatureData) :
  didDataChange prevData data = true ↔
  length prevData ≠ length data ∨
  ∃ i x y, prevData !! i = Some x ∧ data !! i = Some y ∧ shallowEqual x y = false.
Proof.
  unfold didDataChange.
  destruct (Nat.eqb_spec (length prevData) (length data)) as [Hlen|Hlen]; simpl.
  - rewrite anyNotShallowEqual_zip. split; [by right|]. by intros [? | ?].
  - split; [by left | done].
Qed.

Lemma updateDataCalls_app (xs ys : list Call) :
  updateDataCalls (xs ++ ys) = updateDataCalls xs ++ updateDataCalls ys.
Proof.
  induction xs as [|c xs IH]; [done|]. destruct c; simpl; by rewrite ?IH.
Qed.

(** C5: on a component update, [updateData] is called exactly when the data
    prop changed under the shallow per-element comparison. If the two arrays
    differ in length, or two corresponding elements are not shallow-equal, it
    is called once, with the current data; otherwise it is not called. (The
    code passes the current data first and the previous data second.) *)
Theorem componentDidUpdate_updateData_iff_changed (this : Component)
    (prevProps : MapProps) :
  let current := data (props this) in
  let previous := data prevProps in
  let changed :=
    length current ≠ length previous ∨
    ∃ i x y, current !! i = Some x ∧ previous !! i = Some y ∧
      shallowEqual x y = false in
  (changed →
     updateDataCalls (componentDidUpdate this prevProps) = [current]) ∧
  (¬ changed →
     updateDataCalls (componentDidUpdate this prevProps) = []).
Proof.
  intros current previous changed.
  assert (updateDataCalls (componentDidUpdate this prevProps) =
          if didDataChange current previous then [current] else []) as ->.
  { unfold componentDidUpdate. rewrite !updateDataCalls_app.
    fold current previous.
    destruct (didDataChange current previous); simpl;
      destruct (negb (isEqual _ _)); simpl;
      by destruct (_ || _). }
  pose proof (didDataChange_true current previous) as Hspec.
  fold changed in Hspec.
  destruct (didDataChange current previous); split; try done.
  - intros Hno. exfalso. apply Hno. by apply Hspec.
  - intros Hyes. apply Hspec in Hyes. done.
Qed.

(** ** Counting calls along the life of a component *)

Lemma drawCalls_app (xs ys : list Call) :
  drawCalls (xs ++ ys) = drawCalls xs + drawCalls ys.
Proof.
  induction xs as [|c xs IH]; [done|]. destruct c; simpl; by rewrite ?IH.
Qed.

Lemma overlaysBuilt_app (xs ys : list Call) :
  overlaysBuilt (xs ++ ys) = overlaysBuilt xs + overlaysBuilt ys.
Proof.
  induction xs as [|c xs IH]; [done|]. destruct c; simpl; by rewrite ?IH.
Qed.

Lemma errorsDelivered_app (xs ys : list Call) :
  errorsDelivered (xs ++ ys) = errorsDelivered xs ++ errorsDelivered ys.
Proof.
  induction xs as [|c xs IH]; [done|]. destruct c; simpl; by rewrite ?IH.
Qed.

Lemma quiet_app (xs ys : list Call) : quiet xs → quiet ys → quiet (xs ++ ys).
Proof.
  unfold quiet. intros (Hd & Ho & He) (Hd' & Ho' & He').
  rewrite drawCalls_app, overlaysBuilt_app, errorsDelivered_app.
  by rewrite Hd, Ho, He, Hd', Ho', He'.
Qed.

Lemma componentDidUpdate_quiet (this : Component) (prevProps : MapProps) :
  quiet (componentDidUpdate this prevProps).
Proof.
  unfold componentDidUpdate.
  repeat apply quiet_app.
  - by destruct (didDataChange _ _).
  - by destruct (negb (isEqual _ _)).
  - by destruct (_ || _).
Qed.

Lemma componentDidMount_quiet (this : Component) :
  quiet (componentDidMount this).2 ∧ mounted (componentDidMount this).1 = true.
Proof.
  split; [|done]. unfold componentDidMount. simpl.
  destruct (mapStyles (props this)); simpl;
    by destruct (truthyString _); [destruct (onMouseOverPointer _)|].
Qed.

Lemma onBoundsChangedEvent_calls (this : Component) (v : Viewport) :
  ∃ rest, onBoundsChangedEvent this v = Overlay_draw :: rest ∧ quiet rest ∧
    ∀ h, onBoundsChanged (props this) = Some h →
      Props_onBoundsChanged h
        {| northeast := bounds_northeast v; southwest := bounds_southwest v;
           box_center := map_center v; box_zoomLevel := map_zoom v |} ∈ rest.
Proof.
  unfold onBoundsChangedEvent. eexists. split; [done|].
  destruct (onBoundsChanged (props this)) as [h|]; simpl.
  - split; [done|]. intros ? [= <-]. do 3 right. left.
  - split; [done|]. done.
Qed.

Lemma update_counts (this : Component) (nextProps : MapProps)
    (nextState : option MapState) :
  mounted this = true →
  mounted (update this nextProps nextState).1 = true ∧
  drawCalls (update this nextProps nextState).2 = 0 ∧
  overlaysBuilt (update this nextProps nextState).2 = 0 ∧
  errorsDelivered (update this nextProps nextState).2 = [].
Proof.
  intros Hm. unfold update.
  destruct (shouldComponentUpdate this nextProps nextState); simpl; [|done].
  destruct (componentDidUpdate_quiet (withProps this nextProps nextState)
              (props this)) as (? & ? & ?).
  done.
Qed.

Lemma step_counts (this : Component) (a : Action) :
  mounted this = true →
  mounted (step this a).1 = true ∧
  drawCalls (step this a).2 = boundsChangedEvents [a] ∧
  overlaysBuilt (step this a).2 = 0 ∧
  errorsDelivered (step this a).2 = faultsReported [a].
Proof.
  intros Hm. destruct a as [nextProps | nextState | e | error]; simpl.
  - by apply update_counts.
  - by apply update_counts.
  - unfold dispatch. rewrite Hm. destruct e as [| event | event passes | v].
    + simpl. by destruct (idlePending this); simpl; [destruct (onLoad _)|].
    + simpl. unfold onClickEvent. by destruct (onClick _).
    + simpl. by destruct (hoverPointer this); [destruct passes|].
    + destruct (onBoundsChangedEvent_calls this v) as (rest & Hrest & (Hd & Ho & He) & _).
      cbn [fst snd]. rewrite Hrest. simpl. by rewrite Hd, Ho, He.
  - done.
Qed.

Lemma run_counts (this : Component) (actions : list Action) :
  mounted this = true →
  drawCalls (run this actions).2 = boundsChangedEvents actions ∧
  overlaysBuilt (run this actions).2 = 0 ∧
  errorsDelivered (run this actions).2 = faultsReported actions.
Proof.
  revert this. induction actions as [|a rest IH]; intros this Hm; [done|].
  destruct (step_counts this a Hm) as (Hm' & Hd & Ho & He).
  simpl. destruct (step this a) as [this' calls]. simpl in *.
  specialize (IH this' Hm'). destruct (run this' rest) as [this'' calls'].
  simpl in *. destruct IH as (IHd & IHo & IHe).
  rewrite drawCalls_app, overlaysBuilt_app, errorsDelivered_app.
  rewrite Hd, Ho, He, IHd, IHo, IHe.
  by destruct a as [| | [] |].
Qed.

Lemma lifecycle_counts (p : MapProps) (actions : list Action) :
  drawCalls (lifecycle p actions).2 = boundsChangedEvents actions ∧
  overlaysBuilt (lifecycle p actions).2 = 1 ∧
  errorsDelivered (lifecycle p actions).2 = faultsReported actions.
Proof.
  unfold lifecycle, construct.
  match goal with |- context [componentDidMount ?c] => set (c0 := c) end.
  destruct (componentDidMount_quiet c0) as [(Hd & Ho & He) Hm].
  destruct (componentDidMount c0) as [c1 t1]. cbn [fst snd] in *.
  destruct (run_counts c1 (StateUpdate EmptyObject :: actions) Hm) as (Rd & Ro & Re).
  destruct (run c1 _) as [c2 t2]. cbn [fst snd] in *.
  rewrite !drawCalls_app, !overlaysBuilt_app, !errorsDelivered_app.
  by rewrite Hd, Ho, He, Rd, Ro, Re.
Qed.

(** C6: a 'bounds_changed' event delivered to a mounted component makes it
    call the overlay's [draw] first and exactly once, with no test before the
    call; the bounds are reported through [onBoundsChanged] later in the same
    handler. Along any life of the component, the number of calls of [draw]
    is the number of 'bounds_changed' events. *)
Theorem bounds_changed_draws_once (p : MapProps) (actions : list Action)
    (this : Component) (v : Viewport) :
  mounted this = true →
  (∃ rest,
     dispatch this (BoundsChanged v) = (this, Overlay_draw :: rest) ∧
     drawCalls rest = 0 ∧
     ∀ h, onBoundsChanged (props this) = Some h →
       Props_onBoundsChanged h
         {| northeast := bounds_northeast v; southwest := bounds_southwest v;
            box_center := map_center v; box_zoomLevel := map_zoom v |} ∈ rest) ∧
  drawCalls (run this actions).2 = boundsChangedEvents actions ∧
  drawCalls (lifecycle p actions).2 = boundsChangedEvents actions.
Proof.
  intros Hm. split; [|split].
  - unfold dispatch. rewrite Hm.
    destruct (onBoundsChangedEvent_calls this v) as (rest & -> & (? & _) & ?).
    by exists rest.
  - by apply run_counts.
  - apply lifecycle_counts.
Qed.

(** C7: when the props have an [onClick] handler, a click on the map asks the
    overlay's [hitTest] for the clicked point and calls the handler once:
    with the layer index and the feature when a feature is hit, whatever the
    index (0 included), and with null for both when [hitTest] returns
    null. *)
Theorem click_reports_hit (this : Component) (event : MouseEvent) (h : Handler) :
  mounted this = true →
  onClick (props this) = Some h →
  (∀ layerIndex feature,
     hitTest (latLng event) = Some (layerIndex, feature) →
     dispatch this (Click event) =
       (this, [Overlay_hitTest (latLng event);
               Props_onClick h event (Some layerIndex) (Some feature)])) ∧
  (hitTest (latLng event) = None →
     dispatch this (Click event) =
       (this, [Overlay_hitTest (latLng event);
               Props_onClick h event None None])).
Proof.
  intros Hm Hh. unfold dispatch, onClickEvent. rewrite Hm, Hh.
  split.
  - by intros layerIndex feature ->.
  - by intros ->.
Qed.

(** C8: the component builds one overlay, in its constructor, and gives it
    one fault sink; a fault the overlay reports becomes one call of the
    [onError] handler of the current props with that fault, and the component
    calls [onError] for nothing else: along any life of the component the
    errors delivered are the faults reported, in order. *)
Theorem faults_reach_onError (p : MapProps) (actions : list Action)
    (this : Component) (error : Fault) :
  (construct p).2 = [NewCanvasOverlay] ∧
  overlaysBuilt (lifecycle p actions).2 = 1 ∧
  step this (Report error) = (this, [Props_onError (onError (props this)) error]) ∧
  errorsDelivered (lifecycle p actions).2 = faultsReported actions.
Proof.
  destruct (lifecycle_counts p actions) as (_ & Ho & He).
  repeat split; done.
Qed.

End Facts.

(** ** The claims on a sample map *)

Import OverlaySamples.

Lemma componentDidUpdate_updateData_iff_changed_witness :
  updateDataCalls
    (componentDidUpdate
       (withProps OverlaySamples.cityMap OverlaySamples.cityLater None)
       OverlaySamples.city)
  = [["routes"; "stations"]].
Proof.
  apply (proj1 (componentDidUpdate_updateData_iff_changed
                  (withProps OverlaySamples.cityMap OverlaySamples.cityLater None)
                  OverlaySamples.city)).
  right. exists 1, "stations", "stops". repeat split; reflexivity.
Defined.

Lemma bounds_changed_draws_once_witness :
  mounted OverlaySamples.cityMap = true ∧
  drawCalls
    (run OverlaySamples.cityMap
       [Host (BoundsChanged OverlaySamples.window);
        Host (Click OverlaySamples.onTriangle);
        Host (BoundsChanged OverlaySamples.window)]).2 = 2.
Proof.
  split; [reflexivity|].
  apply (bounds_changed_draws_once OverlaySamples.city
           [Host (BoundsChanged OverlaySamples.window);
            Host (Click OverlaySamples.onTriangle);
            Host (BoundsChanged OverlaySamples.window)]
           OverlaySamples.cityMap OverlaySamples.window).
  reflexivity.
Defined.

Lemma click_reports_hit_witness :
  (mounted OverlaySamples.cityMap = true ∧
   onClick (props OverlaySamples.cityMap) = Some "handleClick" ∧
   hitTest (latLng OverlaySamples.onTriangle) = Some (0, "triangleA") ∧
   hitTest (latLng OverlaySamples.farAway) = None) ∧
  dispatch OverlaySamples.cityMap (Click OverlaySamples.onTriangle) =
    (OverlaySamples.cityMap,
     [Overlay_hitTest (latLng OverlaySamples.onTriangle);
      Props_onClick "handleClick" OverlaySamples.onTriangle
        (Some 0) (Some "triangleA")]) ∧
  dispatch OverlaySamples.cityMap (Click OverlaySamples.farAway) =
    (OverlaySamples.cityMap,
     [Overlay_hitTest (latLng OverlaySamples.farAway);
      Props_onClick "handleClick" OverlaySamples.farAway None None]).
Proof.
  split; [repeat split; reflexivity|].
  split.
  - apply (click_reports_hit OverlaySamples.cityMap OverlaySamples.onTriangle
             "handleClick"); reflexivity.
  - apply (click_reports_hit OverlaySamples.cityMap OverlaySamples.farAway
             "handleClick"); reflexivity.
Defined.

End OverlayMapFacts.

(** * Further properties of the CSV loader *)

Module CsvLoaderMore.
Import CsvLoader CsvLoaderFacts.

(** ** Locating the columns of the spec in the header *)

Lemma indexOf_first (h : Row) (x : string) (n : nat) :
  indexOf h x = Some n → ∀ m, m < n → h !! m ≠ Some x.
Proof.
  revert n. induction h as [|y ys IH]; intros n; simpl; [done|].
  destruct (String.eqb_spec y x) as [->|Hne].
  - intros [= <-] m Hm. lia.
  - destruct (indexOf ys x) as [k|] eqn:E; simpl; [|done].
    intros [= <-] [|m] Hm; simpl.
    + congruence.
    + apply (IH k eq_refl). lia.
Qed.

(** The mapping of the columns succeeds exactly when the header has every
    column that the spec does not mark optional. *)
Theorem extractColumnMapping_succeeds_iff (cols : list Column) (h : Row)
    (filename : option string) :
  (∃ out, extractColumnMapping cols (Some h) filename = Ok out) ↔
  (∀ c, c ∈ cols → truthyBool (optional c) = false → name c ∈ h).
Proof.
  split.
  - intros [out Hout] c Hc Hopt.
    destruct (decide (name c ∈ h)) as [|Hmiss]; [done|].
    destruct (extractColumnMapping_required cols h filename c Hc Hopt Hmiss)
      as (c' & _ & _ & _ & Hthrow).
    congruence.
  - apply extractColumnMapping_present.
Qed.

(** When required columns are missing, the error names the first of them in
    the order of the spec. *)
Theorem extractColumnMapping_reports_first_missing (pre post : list Column)
    (c : Column) (h : Row) (filename : option string) :
  (∀ c', c' ∈ pre → truthyBool (optional c') = false → name c' ∈ h) →
  truthyBool (optional c) = false →
  name c ∉ h →
  extractColumnMapping (pre ++ c :: post) (Some h) filename
    = Throw (Error (missingColumnMessage c h filename)).
Proof.
  intros Hpre Hopt Hmiss. induction pre as [|c0 pre IH]; simpl.
  - apply indexOf_None in Hmiss. by rewrite Hmiss, Hopt.
  - rewrite IH; [|intros c' Hc'; apply Hpre; by right].
    destruct (indexOf h (name c0)) as [n|] eqn:E; [done|].
    destruct (truthyBool (optional c0)) eqn:Eo; [done|].
    exfalso. apply indexOf_None in E. apply E. apply Hpre; [left | done].
Qed.

(** A successful mapping lists the columns of the spec that the header has,
    in the order of the spec, each with the first position at which the
    header holds its name. *)
Theorem extractColumnMapping_mapping (cols : list Column) (h : Row)
    (filename : option string) (out : list IndexedColumn) :
  extractColumnMapping cols (Some h) filename = Ok out →
  map base out = filter (λ c, name c ∈ h) cols ∧
  ∀ ic, ic ∈ out →
    h !! number ic = Some (name (base ic)) ∧
    ∀ m, m < number ic → h !! m ≠ Some (name (base ic)).
Proof.
  intros Hout. split.
  - revert out Hout. induction cols as [|c rest IH]; intros out; simpl.
    + by intros [= <-].
    + destruct (indexOf h (name c)) as [n|] eqn:E.
      * destruct (extractColumnMapping rest (Some h) filename) as [out'|]; [|done].
        intros [= <-]. simpl. rewrite filter_cons_True.
        -- by rewrite (IH out' eq_refl).
        -- apply indexOf_lookup in E. by eapply list_elem_of_lookup_2.
      * destruct (truthyBool (optional c)); simpl; [|done].
        intros Hrest. rewrite filter_cons_False; [by apply IH|].
        by apply indexOf_None.
  - intros ic Hic.
    destruct (extractColumnMapping_Ok _ _ _ _ Hout ic Hic) as (_ & h' & [= <-] & Hn).
    split; [by apply indexOf_lookup | by apply indexOf_first].
Qed.

(** ** Filling in the destinations *)

Lemma fieldName_addDestination (ic : IndexedColumn) :
  fieldName (base (addDestination ic)) = fieldName (base ic).
Proof.
  change (orString (Some (orString (destination (base ic)) (name (base ic))))
            (name (base ic))
          = orString (destination (base ic)) (name (base ic))).
  generalize (name (base ic)) as n, (destination (base ic)) as d.
  intros n d. unfold orString, truthyString.
  destruct d as [d|].
  - destruct (String.eqb_spec d "") as [->|Hd]; simpl.
    + by destruct (String.eqb_spec n "").
    + by destruct (String.eqb_spec d "").
  - by destruct (String.eqb_spec n "").
Qed.

(** [addDestinations] gives every column a destination, which is its field
    name; it changes neither the field name nor the name, type, optional flag
    or position of a column, and running it again changes nothing. *)
Theorem addDestinations_fills_in (cs : list IndexedColumn) :
  addDestinations (addDestinations cs) = addDestinations cs ∧
  length (addDestinations cs) = length cs ∧
  ∀ i ic, cs !! i = Some ic →
    ∃ ic', addDestinations cs !! i = Some ic' ∧
      destination (base ic') = Some (fieldName (base ic)) ∧
      fieldName (base ic') = fieldName (base ic) ∧
      name (base ic') = name (base ic) ∧
      type (base ic') = type (base ic) ∧
      optional (base ic') = optional (base ic) ∧
      number ic' = number ic.
Proof.
  split; [|split].
  - unfold addDestinations. induction cs as [|ic cs IH]; simpl; [done|].
    rewrite IH. f_equal.
    pose proof (fieldName_addDestination ic) as Hfield.
    unfold addDestination in *.
    cbn [base name type optional destination number] in *.
    by rewrite Hfield.
  - apply length_map.
  - intros i ic Hi. exists (addDestination ic).
    unfold addDestinations. rewrite lookup_map, Hi. simpl.
    repeat split; try done. apply fieldName_addDestination.
Qed.

Section More.

Context {JSNum : Type} (Number : option string -> JSNum).

(** ** The shape of the records *)

Lemma foldl_assign_dom (row : Row) (cols : list IndexedColumn)
    (o : gmap string (Value JSNum)) (k : string) :
  is_Some (foldl (assign Number row) o cols !! k) ↔
  is_Some (o !! k) ∨ ∃ ic, ic ∈ cols ∧ keyOf ic = k ∧ k ≠ "__proto__".
Proof.
  revert o. induction cols as [|c cs IH]; intros o; simpl.
  - split; [by left|]. intros [? | (ic & Hic & _)]; [done|].
    by apply elem_of_nil in Hic.
  - rewrite IH. destruct (decide (keyOf c = "__proto__")) as [Hproto | Hproto].
    + rewrite assign_proto by done. split.
      * intros [Hk | (ic & Hic & Hkey)]; [by left|].
        right. exists ic. split; [by right | done].
      * intros [Hk | (ic & Hic & Hkey & Hk)]; [by left|].
        apply elem_of_cons in Hic as [-> | Hic]; [congruence|].
        right. by exists ic.
    + rewrite assign_insert, lookup_insert by done. split.
      * intros [Hk | (ic & Hic & Hkey)].
        -- case_decide as Hc; [|by left]. right. exists c.
           split; [left|]. split; [done | congruence].
        -- right. exists ic. split; [by right | done].
      * intros [Hk | (ic & Hic & Hkey & Hk)].
        -- left. by case_decide.
        -- apply elem_of_cons in Hic as [-> | Hic].
           ++ left. rewrite decide_True; done.
           ++ right. by exists ic.
Qed.

(** A resolved load of a file with a header gives one record per data row,
    and every record has the same fields: exactly the field names, other
    than [__proto__], of the columns of the spec that the header has. An
    optional column missing from the file leaves no field of its own, and no
    record has a field under [__proto__]. *)
Theorem records_have_the_mapped_fields (fs : string → option (list (list Row)))
    (filename : string) (spec : CSVSpec) (chunks : list (list Row))
    (header : Row) (records : list (gmap string (Value JSNum))) :
  fs filename = Some chunks →
  headerRow chunks = Some header →
  (loadCSV Number fs filename spec).2 = Resolved records →
  length records = length (dataRows chunks) ∧
  ∀ o k, o ∈ records →
    (is_Some (o !! k) ↔
     k ≠ "__proto__" ∧
     ∃ c, c ∈ columns spec ∧ name c ∈ header ∧ k = fieldName c).
Proof.
  intros Hfile Hheader Hres.
  destruct (loadCSV_resolved _ _ _ _ _ Hres) as [Hspec _].
  destruct chunks as [|rows rest]; [done|].
  rewrite (loadCSV_parsed _ _ _ _ _ _ Hspec Hfile) in Hres.
  rewrite headerRow_cons in Hheader. cbn [snd] in Hres. rewrite Hheader in Hres.
  destruct (extractColumnMapping _ _ _) as [cols|e] eqn:Hcols; [|done].
  injection Hres as <-. split; [by rewrite length_map|].
  intros o k Ho. apply elem_of_map in Ho as (row & -> & _).
  unfold rowToObject. rewrite foldl_assign_dom. split.
  - intros [He | (ic & Hic & <- & Hproto)].
    { rewrite lookup_empty in He. by destruct He. }
    split; [done|].
    apply elem_of_map in Hic as (ic0 & -> & Hic0).
    destruct (extractColumnMapping_Ok _ _ _ _ Hcols ic0 Hic0)
      as (Hbase & h' & [= <-] & Hn).
    exists (base ic0). split; [done|]. split; [|done].
    apply indexOf_lookup in Hn. by eapply list_elem_of_lookup_2.
  - intros (Hproto & c & Hc & Hin & ->). right.
    destruct (indexOf header (name c)) as [n|] eqn:Hn.
    + exists (addDestination {| base := c; number := n |}).
      split; [|done].
      apply elem_of_map. eexists. split; [done|].
      by apply (extractColumnMapping_complete _ _ _ _ Hcols).
    + by apply indexOf_None in Hn.
Qed.

(** In a record of a loaded file, the field of a string column is the raw
    cell of the row in that column, unchanged, and undefined when the row is
    too short to have the cell. (The column's field name is not [__proto__],
    under which nothing is stored, and no other column of the spec has
    it.) *)
Theorem string_field_is_the_cell (fs : string → option (list (list Row)))
    (filename : string) (spec : CSVSpec) (chunks : list (list Row))
    (header : Row) (records : list (gmap string (Value JSNum)))
    (c : Column) (n : nat) :
  fs filename = Some chunks →
  headerRow chunks = Some header →
  (loadCSV Number fs filename spec).2 = Resolved records →
  c ∈ columns spec →
  type c = STRING →
  indexOf header (name c) = Some n →
  fieldName c ≠ "__proto__" →
  (∀ c', c' ∈ columns spec → fieldName c' = fieldName c → c' = c) →
  ∀ i row, dataRows chunks !! i = Some row →
    ∃ o, records !! i = Some o ∧
      (∀ cell, row !! n = Some cell → o !! fieldName c = Some (VString cell)) ∧
      (row !! n = None → o !! fieldName c = Some VUndefined).
Proof.
  intros Hfile Hheader Hres Hc Htype Hn Hproto Hsole i row Hrow.
  destruct (loadCSV_field Number fs _ _ _ _ _ _ _ Hfile Hheader Hres Hc Hn
              i row Hrow) as (o & Ho & _ & Hfield).
  specialize (Hfield Hproto Hsole).
  rewrite Htype in Hfield. simpl in Hfield.
  exists o. split; [done|]. split.
  - intros cell Hcell. by rewrite Hcell in Hfield.
  - intros Hcell. by rewrite Hcell in Hfield.
Qed.

(** ** Duplicate fields *)

Lemma findDuplicateFrom_repeated (seen xs : list string) (d : string) :
  findDuplicateFrom seen xs = Some d →
  (d ∈ seen ∧ ∃ j, xs !! j = Some d) ∨
  ∃ i j, i < j ∧ xs !! i = Some d ∧ xs !! j = Some d.
Proof.
  revert seen. induction xs as [|x rest IH]; intros seen; simpl; [done|].
  case_bool_decide as Hin.
  - intros [= ->]. left. split; [done|]. by exists 0.
  - intros Hd. destruct (IH _ Hd) as [[Hseen [j Hj]] | (i & j & Hij & Hi & Hj)].
    + apply elem_of_cons in Hseen as [-> | Hseen].
      * right. exists 0, (S j). split; [lia | done].
      * left. split; [done|]. by exists (S j).
    + right. exists (S i), (S j). split; [lia | done].
Qed.

(** When two columns resolve to the same field name and no field name is the
    empty string, the load is rejected with the duplicate-field message for a
    name that occurs twice, before any call to the file system. *)
Theorem duplicate_field_rejected_first (fs : string → option (list (list Row)))
    (filename : string) (spec : CSVSpec) :
  ¬ NoDup (map fieldName (columns spec)) →
  "" ∉ map fieldName (columns spec) →
  ∃ d i j, i < j ∧
    map fieldName (columns spec) !! i = Some d ∧
    map fieldName (columns spec) !! j = Some d ∧
    loadCSV Number fs filename spec =
      ([], Rejected (Message ("Duplicate field in CSV spec: " +:+ d))).
Proof.
  intros Hdup Hblank.
  destruct (findDuplicate (map fieldName (columns spec))) as [d|] eqn:Hd.
  - destruct (findDuplicateFrom_repeated _ _ _ Hd)
      as [[Hseen _] | (i & j & Hij & Hi & Hj)].
    { by apply elem_of_nil in Hseen. }
    exists d, i, j. repeat split; try done.
    apply loadCSV_duplicate_field; [done|].
    intros ->. apply Hblank. by eapply list_elem_of_lookup_2.
  - by apply findDuplicate_None in Hd.
Qed.

(** ** What the result does not depend on *)

(** How the parser cuts the file into chunks does not matter, as long as the
    first chunk holds the header row. *)
Theorem loadCSV_chunking (fs fs' : string → option (list (list Row)))
    (filename : string) (spec : CSVSpec) (chunks : list (list Row)) :
  fs filename = Some chunks →
  fs' filename = Some [concat chunks] →
  is_Some (headerRow chunks) →
  loadCSV Number fs filename spec = loadCSV Number fs' filename spec.
Proof.
  intros Hfile Hfile' [header Hheader].
  destruct (findSpecError spec) as [error|] eqn:Hspec.
  { by rewrite !(loadCSV_spec_error _ _ _ _ _ Hspec). }
  destruct chunks as [|rows rest]; [done|].
  rewrite headerRow_cons in Hheader.
  destruct rows as [|r0 rows]; [done|]. injection Hheader as ->.
  rewrite (loadCSV_parsed _ _ _ _ _ _ Hspec Hfile).
  rewrite (loadCSV_parsed _ _ _ _ _ _ Hspec Hfile').
  simpl. by rewrite !app_nil_r.
Qed.

(** For a file that exists, the flag [isOptional] of the spec plays no part:
    two specs with the same columns load it alike. *)
Theorem isOptional_only_for_missing_files
    (fs : string → option (list (list Row))) (filename : string)
    (spec spec' : CSVSpec) :
  is_Some (fs filename) →
  columns spec = columns spec' →
  loadCSV Number fs filename spec = loadCSV Number fs filename spec'.
Proof.
  intros [chunks Hfile] Hcols.
  unfold loadCSV, findSpecError, onRows. by rewrite Hcols, Hfile.
Qed.

Lemma extractColumnMapping_same_names (cols : list Column) (h h' : Row)
    (filename filename' : option string) (out : list IndexedColumn) :
  (∀ x, x ∈ h ↔ x ∈ h') →
  extractColumnMapping cols (Some h) filename = Ok out →
  ∃ out', extractColumnMapping cols (Some h') filename' = Ok out' ∧
    Forall2 (λ ic ic', base ic = base ic' ∧
               h !! number ic = Some (name (base ic)) ∧
               h' !! number ic' = Some (name (base ic))) out out'.
Proof.
  intros Hsame. revert out. induction cols as [|c rest IH]; intros out; simpl.
  - intros [= <-]. by exists [].
  - destruct (indexOf h (name c)) as [n|] eqn:E.
    + destruct (extractColumnMapping rest (Some h) filename) as [out0|]; [|done].
      intros [= <-]. destruct (IH out0 eq_refl) as (out0' & -> & Hrel).
      destruct (indexOf h' (name c)) as [n'|] eqn:E'.
      * eexists. split; [done|]. constructor; [|done]. simpl.
        split; [done|]. split; by apply indexOf_lookup.
      * exfalso. apply indexOf_None in E'. apply E', Hsame.
        apply indexOf_lookup in E. by eapply list_elem_of_lookup_2.
    + destruct (truthyBool (optional c)); simpl; [|done].
      intros Hrest. destruct (IH out Hrest) as (out' & Hout' & Hrel).
      exists out'. split; [|done].
      destruct (indexOf h' (name c)) as [n'|] eqn:E'; [|done].
      exfalso. apply indexOf_None in E. apply E, Hsame.
      apply indexOf_lookup in E'. by eapply list_elem_of_lookup_2.
Qed.

Lemma foldl_assign_related (row row' : Row) (cols cols' : list IndexedColumn)
    (o : gmap string (Value JSNum)) :
  Forall2 (λ ic ic', keyOf ic = keyOf ic' ∧
             valueOf Number row ic = valueOf Number row' ic') cols cols' →
  foldl (assign Number row) o cols = foldl (assign Number row') o cols'.
Proof.
  intros Hrel. revert o.
  induction Hrel as [|ic ic' cs cs' [Hkey Hval] _ IH]; intros o; simpl; [done|].
  unfold assign at 2 4. rewrite Hkey, Hval. apply IH.
Qed.

(** The columns of a file may come in any order: two files whose headers
    hold the same names, with as many data rows, and whose rows agree on the
    cell of every column name, give the same records. *)
Theorem column_order_is_irrelevant (fs fs' : string → option (list (list Row)))
    (filename filename' : string) (spec : CSVSpec)
    (chunks chunks' : list (list Row)) (h h' : Row)
    (records : list (gmap string (Value JSNum))) :
  fs filename = Some chunks →
  fs' filename' = Some chunks' →
  headerRow chunks = Some h →
  headerRow chunks' = Some h' →
  (∀ x, x ∈ h ↔ x ∈ h') →
  length (dataRows chunks) = length (dataRows chunks') →
  (∀ i row row' x n n',
     dataRows chunks !! i = Some row → dataRows chunks' !! i = Some row' →
     h !! n = Some x → h' !! n' = Some x → row !! n = row' !! n') →
  (loadCSV Number fs filename spec).2 = Resolved records →
  (loadCSV Number fs' filename' spec).2 = Resolved records.
Proof.
  intros Hfile Hfile' Hh Hh' Hsame Hlen Hcells Hres.
  destruct (loadCSV_resolved _ _ _ _ _ Hres) as [Hspec _].
  destruct chunks as [|rows rest]; [done|].
  destruct chunks' as [|rows' rest']; [done|].
  rewrite (loadCSV_parsed _ _ _ _ _ _ Hspec Hfile) in Hres.
  rewrite (loadCSV_parsed _ _ _ _ _ _ Hspec Hfile').
  rewrite headerRow_cons in Hh, Hh'.
  remember (dataRows (rows :: rest)) as ds eqn:Hds.
  remember (dataRows (rows' :: rest')) as ds' eqn:Hds'.
  cbn [snd] in *. rewrite Hh in Hres. rewrite Hh'.
  destruct (extractColumnMapping _ (Some h) _) as [cols|e] eqn:Hcols; [|done].
  destruct (extractColumnMapping_same_names _ _ _ _ (Some filename') _ Hsame Hcols)
    as (cols' & -> & Hrel).
  injection Hres as <-. f_equal.
  apply list_eq. intros i. rewrite !lookup_map.
  destruct (ds !! i) as [row|] eqn:Hrow.
  - destruct (ds' !! i) as [row'|] eqn:Hrow'.
    + simpl. f_equal. symmetry. unfold rowToObject, addDestinations.
      apply foldl_assign_related. clear Hcols.
      induction Hrel as [|ic ic' cs cs' (Hbase & Hn & Hn') _ IH]; simpl;
        [constructor|].
      constructor; [|done].
      rewrite !keyOf_addDestination, !valueOf_addDestination.
      unfold valueOf. rewrite Hbase. split; [done|]. f_equal.
      exact (Hcells i row row' _ _ _ Hrow Hrow' Hn Hn').
    + apply lookup_lt_Some in Hrow. apply lookup_ge_None in Hrow'. lia.
  - destruct (ds' !! i) as [row'|] eqn:Hrow'; [|done].
    apply lookup_lt_Some in Hrow'. apply lookup_ge_None in Hrow. lia.
Qed.

End More.

(** ** The properties on sample files *)

Lemma extractColumnMapping_reports_first_missing_witness :
  extractColumnMapping (columns CsvSamples.stops)
    (Some ["stop_id"; "wheelchair"]) (Some "short.txt")
  = Throw (Error "Required column stop_lat missing from stop_id,wheelchair in short.txt.").
Proof.
  apply (extractColumnMapping_reports_first_missing [CsvSamples.stop_id]
           [CsvSamples.wheelchair] CsvSamples.stop_lat
           ["stop_id"; "wheelchair"] (Some "short.txt")).
  - intros c' Hc' _. apply list_elem_of_singleton in Hc' as ->. left.
  - reflexivity.
  - apply indexOf_None. reflexivity.
Defined.

Lemma extractColumnMapping_mapping_witness :
  map base [ {| base := CsvSamples.stop_id; number := 0 |};
             {| base := CsvSamples.stop_lat; number := 2 |};
             {| base := CsvSamples.wheelchair; number := 3 |} ]
  = filter (λ c, name c ∈ CsvSamples.stopsHeader) (columns CsvSamples.stops).
Proof.
  apply (extractColumnMapping_mapping (columns CsvSamples.stops)
           CsvSamples.stopsHeader (Some "stops.txt")).
  reflexivity.
Defined.

Lemma records_have_the_mapped_fields_witness :
  (length CsvSamples.stopsRecords = length (dataRows CsvSamples.stopsFile) ∧
   ∀ o k, o ∈ CsvSamples.stopsRecords →
     (is_Some (o !! k) ↔
      k ≠ "__proto__" ∧
      ∃ c, c ∈ columns CsvSamples.stops ∧ name c ∈ CsvSamples.stopsHeader ∧
        k = fieldName c)) ∧
  ((loadCSV CsvSamples.digitsNumber CsvSamples.flagsDisk "flags.txt"
      CsvSamples.hiddenLabel).2 = Resolved [∅] ∧
   ∀ o k, o ∈ [(∅ : gmap string (Value (option N)))] →
     (is_Some (o !! k) ↔
      k ≠ "__proto__" ∧
      ∃ c, c ∈ columns CsvSamples.hiddenLabel ∧
        name c ∈ CsvSamples.flagsHeader ∧ k = fieldName c)).
Proof.
  split.
  - apply (records_have_the_mapped_fields CsvSamples.digitsNumber
             CsvSamples.disk "stops.txt" CsvSamples.stops CsvSamples.stopsFile
             CsvSamples.stopsHeader CsvSamples.stopsRecords);
      reflexivity.
  - split; [reflexivity|].
    apply (records_have_the_mapped_fields CsvSamples.digitsNumber
             CsvSamples.flagsDisk "flags.txt" CsvSamples.hiddenLabel
             CsvSamples.flagsFile CsvSamples.flagsHeader [∅]);
      reflexivity.
Defined.

Lemma string_field_is_the_cell_witness :
  (type CsvSamples.stop_id = STRING ∧
   indexOf CsvSamples.stopsHeader (name CsvSamples.stop_id) = Some 0) ∧
  ∀ i row, dataRows CsvSamples.stopsFile !! i = Some row →
    ∃ o, CsvSamples.stopsRecords !! i = Some o ∧
      (∀ cell, row !! 0 = Some cell →
         o !! fieldName CsvSamples.stop_id = Some (VString cell)) ∧
      (row !! 0 = None → o !! fieldName CsvSamples.stop_id = Some VUndefined).
Proof.
  split; [split; reflexivity|].
  apply (string_field_is_the_cell CsvSamples.digitsNumber CsvSamples.disk
           "stops.txt" CsvSamples.stops CsvSamples.stopsFile
           CsvSamples.stopsHeader CsvSamples.stopsRecords CsvSamples.stop_id 0);
    [reflexivity | reflexivity | reflexivity | left | reflexivity | reflexivity
    | discriminate |].
  apply (mem_stops (λ c', fieldName c' = fieldName CsvSamples.stop_id →
                          c' = CsvSamples.stop_id));
    [reflexivity | discriminate | discriminate].
Defined.

Lemma duplicate_field_rejected_first_witness :
  ∃ d i j, i < j ∧
    map fieldName (columns CsvSamples.idTwice) !! i = Some d ∧
    map fieldName (columns CsvSamples.idTwice) !! j = Some d ∧
    loadCSV CsvSamples.digitsNumber CsvSamples.disk "stops.txt"
      CsvSamples.idTwice =
      ([], Rejected (Message ("Duplicate field in CSV spec: " +:+ d))).
Proof.
  apply (duplicate_field_rejected_first CsvSamples.digitsNumber CsvSamples.disk
           "stops.txt" CsvSamples.idTwice).
  - intros Hnd. apply NoDup_cons in Hnd as [Hfresh _]. apply Hfresh. left.
  - apply indexOf_None. reflexivity.
Defined.

Lemma loadCSV_chunking_witness :
  loadCSV CsvSamples.digitsNumber CsvSamples.disk "stops.txt" CsvSamples.stops
  = loadCSV CsvSamples.digitsNumber CsvSamples.diskWhole "stops.txt"
      CsvSamples.stops.
Proof.
  apply (loadCSV_chunking CsvSamples.digitsNumber CsvSamples.disk
           CsvSamples.diskWhole "stops.txt" CsvSamples.stops
           CsvSamples.stopsFile);
    [reflexivity | reflexivity | by eexists].
Defined.

Lemma isOptional_only_for_missing_files_witness :
  loadCSV CsvSamples.digitsNumber CsvSamples.disk "stops.txt" CsvSamples.stops
  = loadCSV CsvSamples.digitsNumber CsvSamples.disk "stops.txt"
      CsvSamples.optionalStops.
Proof.
  apply (isOptional_only_for_missing_files CsvSamples.digitsNumber
           CsvSamples.disk "stops.txt" CsvSamples.stops
           CsvSamples.optionalStops);
    [by eexists | reflexivity].
Defined.

Lemma shuffled_same_names (x : string) :
  x ∈ CsvSamples.stopsHeader ↔ x ∈ CsvSamples.shuffledHeader.
Proof.
  unfold CsvSamples.stopsHeader, CsvSamples.shuffledHeader.
  rewrite !elem_of_cons, !elem_of_nil. tauto.
Defined.

Lemma shuffled_same_cells (i : nat) (row row' : Row) (x : string) (n n' : nat) :
  dataRows CsvSamples.stopsFile !! i = Some row →
  dataRows CsvSamples.shuffledFile !! i = Some row' →
  CsvSamples.stopsHeader !! n = Some x →
  CsvSamples.shuffledHeader !! n' = Some x →
  row !! n = row' !! n'.
Proof.
  intros Hrow Hrow' Hn Hn'.
  destruct i as [|[|i]]; simpl in Hrow, Hrow'; [| |discriminate];
    injection Hrow as <-; injection Hrow' as <-;
    destruct n as [|[|[|[|n]]]]; simpl in Hn; try discriminate;
    injection Hn as <-;
    destruct n' as [|[|[|[|n']]]]; simpl in Hn'; try discriminate;
    reflexivity.
Defined.

Lemma column_order_is_irrelevant_witness :
  (loadCSV CsvSamples.digitsNumber CsvSamples.disk "stops.txt"
     CsvSamples.stops).2 = Resolved CsvSamples.stopsRecords ∧
  (loadCSV CsvSamples.digitsNumber CsvSamples.diskShuffled "shuffled.txt"
     CsvSamples.stops).2 = Resolved CsvSamples.stopsRecords.
Proof.
  split; [reflexivity|].
  apply (column_order_is_irrelevant CsvSamples.digitsNumber CsvSamples.disk
           CsvSamples.diskShuffled "stops.txt" "shuffled.txt" CsvSamples.stops
           CsvSamples.stopsFile CsvSamples.shuffledFile
           CsvSamples.stopsHeader CsvSamples.shuffledHeader
           CsvSamples.stopsRecords);
    [reflexivity | reflexivity | reflexivity | reflexivity
    | exact shuffled_same_names | reflexivity | exact shuffled_same_cells
    | reflexivity].
Defined.

End CsvLoaderMore.

(** * Further properties of the OverlayMap component *)

Module OverlayMapMore.
Import OverlayMap OverlayMapFacts.

Section More.

Context {T : Types} {U : Helpers}.

(** ** The comparison of the data prop *)

Lemma anyNotShallowEqual_zip_sym (xs ys : list StyledFeatureData) :
  (∀ x y, shallowEqual x y = shallowEqual y x) →
  anyNotShallowEqual (zip xs ys) = anyNotShallowEqual (zip ys xs).
Proof.
  intros Hsym. revert ys. induction xs as [|x xs IH]; intros [|y ys]; simpl;
    try done.
  rewrite (Hsym x y), IH. done.
Qed.

(** [componentDidUpdate] passes the current data where [didDataChange]
    expects the previous one, and the previous data where it expects the
    current one. With a symmetric [shallowEqual] the order of the two arrays
    makes no difference. *)
Theorem didDataChange_symmetric (prevData data : list StyledFeatureData) :
  (∀ x y, shallowEqual x y = shallowEqual y x) →
  didDataChange prevData data = didDataChange data prevData.
Proof.
  intros Hsym. unfold didDataChange.
  rewrite (Nat.eqb_sym (length prevData)).
  by rewrite (anyNotShallowEqual_zip_sym _ _ Hsym).
Qed.

Lemma didDataChange_false (prevData data : list StyledFeatureData) :
  didDataChange prevData data = false ↔
  length prevData = length data ∧
  ∀ i x y, prevData !! i = Some x → data !! i = Some y →
    shallowEqual x y = true.
Proof.
  pose proof (didDataChange_true prevData data) as Htrue.
  destruct (didDataChange prevData data); split; try done.
  - intros [Hlen Hall]. destruct (proj1 Htrue eq_refl)
      as [Hne | (i & x & y & Hx & Hy & Hxy)]; [done|].
    rewrite (Hall i x y Hx Hy) in Hxy. done.
  - intros _. split.
    + destruct (decide (length prevData = length data)) as [|Hne]; [done|].
      by discriminate (proj2 Htrue (or_introl Hne)).
    + intros i x y Hx Hy. destruct (shallowEqual x y) eqn:Hxy; [done|].
      by discriminate (proj2 Htrue (or_intror (ex_intro _ i (ex_intro _ x
                         (ex_intro _ y (conj Hx (conj Hy Hxy))))))).
Qed.

(** An update that leaves the props as they are, such as the one that
    [setState({})] forces at the end of the mount, makes no call at all, when
    every layer is shallow-equal to itself and the view is equal to
    itself. *)
Theorem unchanged_props_update_is_silent (this : Component)
    (nextState : option MapState) :
  (∀ x, x ∈ data (props this) → shallowEqual x x = true) →
  isEqual (view (props this)) (view (props this)) = true →
  (update this (props this) nextState).2 = [].
Proof.
  intros Hrefl Hview. unfold update.
  destruct (shouldComponentUpdate this (props this) nextState); [|done].
  cbn [snd]. unfold componentDidUpdate. cbn [props withProps].
  rewrite Hview, !bool_decide_eq_true_2 by done. simpl.
  rewrite (proj2 (didDataChange_false _ _)); [done|].
  split; [done|]. intros i x y Hx Hy. rewrite Hx in Hy. injection Hy as <-.
  apply Hrefl. by eapply list_elem_of_lookup_2.
Qed.

(** ** What stays fixed after the mount *)

Lemma step_keeps (this : Component) (a : Action) :
  mounted (step this a).1 = mounted this ∧
  hoverPointer (step this a).1 = hoverPointer this.
Proof.
  destruct a as [nextProps | nextState | e | error]; simpl.
  - unfold update. by destruct (shouldComponentUpdate _ _ _).
  - unfold update. by destruct (shouldComponentUpdate _ _ _).
  - unfold dispatch. destruct (mounted this) eqn:Hm; [|done].
    destruct e; try done. by destruct (idlePending this).
  - done.
Qed.

Lemma run_keeps (this : Component) (actions : list Action) :
  mounted (run this actions).1 = mounted this ∧
  hoverPointer (run this actions).1 = hoverPointer this.
Proof.
  revert this. induction actions as [|a rest IH]; intros this; [done|].
  simpl. destruct (step_keeps this a) as [Hm Hp].
  destruct (step this a) as [this' calls]. cbn [fst] in *.
  specialize (IH this'). destruct (run this' rest) as [this'' calls'].
  cbn [fst] in *. destruct IH as [IHm IHp]. split; congruence.
Qed.

(** The mousemove listener keeps the pointer that the props had at the
    mount: whatever props are passed later, a mouse move that the throttle
    lets through sets the cursor to that pointer over a feature and to the
    default elsewhere, and there is no listener at all when the prop was
    absent or empty at the mount. *)
Theorem hover_pointer_is_fixed_at_mount (p : MapProps) (actions : list Action)
    (event : MouseEvent) :
  dispatch (lifecycle p actions).1 (MouseMove event true) =
    ((lifecycle p actions).1,
     if truthyString (onMouseOverPointer p)
     then [Overlay_hitTest (latLng event);
           Map_setDraggableCursor
             (if hitTest (latLng event) is Some _
              then showString (onMouseOverPointer p)
              else DEFAULT_DRAGGABLE_CURSOR)]
     else []).
Proof.
  unfold lifecycle, construct.
  match goal with |- context [componentDidMount ?c] => set (c0 := c) end.
  assert (mounted (componentDidMount c0).1 = true ∧
          hoverPointer (componentDidMount c0).1 =
            if truthyString (onMouseOverPointer p) then onMouseOverPointer p
            else None) as [Hm Hp] by done.
  destruct (componentDidMount c0) as [c1 t1]. cbn [fst] in *.
  destruct (run_keeps c1 (StateUpdate EmptyObject :: actions)) as [Rm Rp].
  destruct (run c1 _) as [c2 t2]. cbn [fst] in *.
  unfold dispatch. rewrite Rm, Hm, Rp, Hp.
  destruct (onMouseOverPointer p) as [pointer|]; [|done].
  by destruct (truthyString (Some pointer)).
Qed.

(** The click and bounds listeners read the handlers from the props of the
    moment: after new props are passed, whether or not the component
    re-renders for them, a click goes to the new [onClick] and the bounds to
    the new [onBoundsChanged]. *)
Theorem listeners_use_the_current_props (this : Component)
    (nextProps : MapProps) (event : MouseEvent) (v : Viewport) (h h' : Handler) :
  mounted this = true →
  onClick nextProps = Some h →
  onBoundsChanged nextProps = Some h' →
  (dispatch (step this (Update nextProps)).1 (Click event)).2 =
    [Overlay_hitTest (latLng event);
     Props_onClick h event (andProj (hitTest (latLng event)) fst)
       (andProj (hitTest (latLng event)) snd)] ∧
  Props_onBoundsChanged h'
    {| northeast := bounds_northeast v; southwest := bounds_southwest v;
       box_center := map_center v; box_zoomLevel := map_zoom v |}
    ∈ (dispatch (step this (Update nextProps)).1 (BoundsChanged v)).2.
Proof.
  intros Hm Hclick Hbounds.
  assert (mounted (step this (Update nextProps)).1 = true ∧
          props (step this (Update nextProps)).1 = nextProps) as [Hm' Hp'].
  { simpl. unfold update. by destruct (shouldComponentUpdate _ _ _). }
  destruct (step this (Update nextProps)) as [this' calls]. cbn [fst] in *.
  unfold dispatch. rewrite Hm'. cbn [snd].
  unfold onClickEvent, onBoundsChangedEvent. rewrite Hp', Hclick, Hbounds.
  split; [done|]. do 4 right. left.
Qed.

(** ** The 'idle' listener *)

Lemma onLoadCalls_app (xs ys : list Call) :
  onLoadCalls (xs ++ ys) = onLoadCalls xs + onLoadCalls ys.
Proof.
  induction xs as [|c xs IH]; [done|]. destruct c; simpl; by rewrite ?IH.
Qed.

Lemma componentDidUpdate_no_onLoad (this : Component) (prevProps : MapProps) :
  onLoadCalls (componentDidUpdate this prevProps) = 0.
Proof.
  unfold componentDidUpdate. rewrite !onLoadCalls_app.
  destruct (didDataChange _ _); destruct (negb (isEqual _ _));
    by destruct (_ || _).
Qed.

Lemma step_idle (this : Component) (a : Action) :
  mounted this = true →
  let first := idlePending this && negb (idleEvents [a] =? 0) in
  idlePending (step this a).1 = idlePending this && (idleEvents [a] =? 0) ∧
  mapIsReady (step this a).1 = mapIsReady this || first ∧
  onLoadCalls (step this a).2 ≤ (if first then 1 else 0).
Proof.
  intros Hm. destruct a as [nextProps | nextState | e | error]; simpl.
  - unfold update. destruct (shouldComponentUpdate _ _ _); simpl;
      rewrite ?componentDidUpdate_no_onLoad;
      by destruct (idlePending this), (mapIsReady this).
  - unfold update. destruct (shouldComponentUpdate _ _ _); simpl;
      rewrite ?componentDidUpdate_no_onLoad;
      by destruct (idlePending this), (mapIsReady this).
  - unfold dispatch. rewrite Hm. destruct e as [| event | event passes | v].
    + simpl. destruct (idlePending this) eqn:Hp; simpl; rewrite ?Hp.
      * split; [done|]. split; [by destruct (mapIsReady this)|].
        destruct (onLoad (props this)); simpl; lia.
      * split; [done|]. split; [by destruct (mapIsReady this)|]. lia.
    + simpl. unfold onClickEvent.
      destruct (onClick _); by destruct (idlePending this), (mapIsReady this).
    + simpl. destruct (hoverPointer this); [destruct passes|];
        by destruct (idlePending this), (mapIsReady this).
    + simpl. unfold onBoundsChangedEvent.
      destruct (onBoundsChanged _);
        by destruct (idlePending this), (mapIsReady this).
  - by destruct (idlePending this), (mapIsReady this).
Qed.

Lemma idleEvents_cons (a : Action) (rest : list Action) :
  idleEvents (a :: rest) = idleEvents [a] + idleEvents rest.
Proof. by destruct a as [| | [] |]. Qed.

Lemma run_idle (this : Component) (actions : list Action) :
  mounted this = true →
  let first := idlePending this && negb (idleEvents actions =? 0) in
  mapIsReady (run this actions).1 = mapIsReady this || first ∧
  onLoadCalls (run this actions).2 ≤ (if first then 1 else 0).
Proof.
  revert this. induction actions as [|a rest IH]; intros this Hm.
  { simpl. rewrite andb_false_r, orb_false_r. split; [done | lia]. }
  cbn zeta. rewrite idleEvents_cons.
  destruct (step_idle this a Hm) as (Hpending & Hready & Hcalls).
  pose proof (step_keeps this a) as [Hm' _]. rewrite Hm in Hm'.
  simpl run. destruct (step this a) as [this' calls]. cbn [fst snd] in *.
  specialize (IH this' Hm'). cbn zeta in IH.
  destruct (run this' rest) as [this'' calls']. cbn [fst snd] in *.
  destruct IH as [IHready IHcalls].
  rewrite onLoadCalls_app, IHready, Hready.
  rewrite Hpending in IHcalls |- *.
  destruct (idlePending this), (mapIsReady this),
    (idleEvents [a]) as [|k], (idleEvents rest) as [|k'];
    simpl in *; split; try done; lia.
Qed.

(** The 'idle' listener runs once: along any life of the component [onLoad]
    is called at most once, and not at all before the first 'idle' event;
    [mapIsReady] is set exactly when an 'idle' event has come. *)
Theorem onLoad_fires_at_most_once (p : MapProps) (actions : list Action) :
  onLoadCalls (lifecycle p actions).2 ≤ 1 ∧
  (idleEvents actions = 0 → onLoadCalls (lifecycle p actions).2 = 0) ∧
  mapIsReady (lifecycle p actions).1 = negb (idleEvents actions =? 0).
Proof.
  unfold lifecycle, construct.
  match goal with |- context [componentDidMount ?c] => set (c0 := c) end.
  assert (mounted (componentDidMount c0).1 = true ∧
          idlePending (componentDidMount c0).1 = true ∧
          mapIsReady (componentDidMount c0).1 = false ∧
          onLoadCalls (componentDidMount c0).2 = 0) as (Hm & Hi & Hr & Hc).
  { repeat split. unfold componentDidMount. cbn [snd].
    rewrite !onLoadCalls_app. destruct (mapStyles _); simpl;
      by destruct (truthyString _); [destruct (onMouseOverPointer _)|]. }
  destruct (componentDidMount c0) as [c1 t1]. cbn [fst snd] in *.
  destruct (run_idle c1 (StateUpdate EmptyObject :: actions) Hm) as [Rr Rc].
  rewrite Hi, Hr in *.
  change (idleEvents (StateUpdate EmptyObject :: actions))
    with (idleEvents actions) in *.
  destruct (run c1 _) as [c2 t2]. cbn [fst snd] in *.
  rewrite !onLoadCalls_app, Hc. simpl.
  split; [|split].
  - destruct (idleEvents actions =? 0); simpl in *; lia.
  - intros Hnone. rewrite Hnone in Rc. simpl in Rc. lia.
  - done.
Qed.

(** ** One map, listeners registered once *)

Lemma mapsBuilt_app (xs ys : list Call) :
  mapsBuilt (xs ++ ys) = mapsBuilt xs + mapsBuilt ys.
Proof.
  induction xs as [|c xs IH]; [done|]. destruct c; simpl; by rewrite ?IH.
Qed.

Lemma listenersAdded_app (xs ys : list Call) :
  listenersAdded (xs ++ ys) = listenersAdded xs + listenersAdded ys.
Proof.
  induction xs as [|c xs IH]; [done|]. destruct c; simpl; by rewrite ?IH.
Qed.

Lemma step_builds_nothing (this : Component) (a : Action) :
  mapsBuilt (step this a).2 = 0 ∧ listenersAdded (step this a).2 = 0.
Proof.
  assert (∀ this' prevProps,
            mapsBuilt (componentDidUpdate this' prevProps) = 0 ∧
            listenersAdded (componentDidUpdate this' prevProps) = 0) as Hupdate.
  { intros this' prevProps. unfold componentDidUpdate.
    rewrite !mapsBuilt_app, !listenersAdded_app.
    destruct (didDataChange _ _); destruct (negb (isEqual _ _));
      by destruct (_ || _). }
  destruct a as [nextProps | nextState | e | error]; simpl.
  - unfold update. destruct (shouldComponentUpdate _ _ _); [apply Hupdate | done].
  - unfold update. destruct (shouldComponentUpdate _ _ _); [apply Hupdate | done].
  - unfold dispatch. destruct (mounted this); [|done].
    destruct e as [| event | event passes | v]; simpl.
    + by destruct (idlePending this); simpl; [destruct (onLoad _)|].
    + unfold onClickEvent. by destruct (onClick _).
    + by destruct (hoverPointer this); [destruct passes|].
    + unfold onBoundsChangedEvent. by destruct (onBoundsChanged _).
  - done.
Qed.

Lemma run_builds_nothing (this : Component) (actions : list Action) :
  mapsBuilt (run this actions).2 = 0 ∧ listenersAdded (run this actions).2 = 0.
Proof.
  revert this. induction actions as [|a rest IH]; intros this; [done|].
  simpl. destruct (step_builds_nothing this a) as [Hm Hl].
  destruct (step this a) as [this' calls]. cbn [snd] in *.
  specialize (IH this'). destruct (run this' rest) as [this'' calls'].
  cbn [snd] in *. destruct IH as [IHm IHl].
  rewrite mapsBuilt_app, listenersAdded_app. lia.
Qed.

(** Along any life of the component one host map is created, and listeners
    are registered at the mount only: three of them, and a fourth for
    'mousemove' when the props have a non-empty [onMouseOverPointer] then.
    Updates and events add none. *)
Theorem listeners_registered_once (p : MapProps) (actions : list Action) :
  mapsBuilt (lifecycle p actions).2 = 1 ∧
  listenersAdded (lifecycle p actions).2 =
    if truthyString (onMouseOverPointer p) then 4 else 3.
Proof.
  unfold lifecycle, construct.
  match goal with |- context [componentDidMount ?c] => set (c0 := c) end.
  assert (mapsBuilt (componentDidMount c0).2 = 1 ∧
          listenersAdded (componentDidMount c0).2 =
            if truthyString (onMouseOverPointer p) then 4 else 3) as [Hm Hl].
  { unfold componentDidMount. cbn [snd props c0].
    rewrite !mapsBuilt_app, !listenersAdded_app.
    destruct (mapStyles p); destruct (onMouseOverPointer p) as [pointer|];
      simpl; try done; by destruct (negb (String.eqb pointer "")). }
  destruct (componentDidMount c0) as [c1 t1]. cbn [snd] in *.
  destruct (run_builds_nothing c1 (StateUpdate EmptyObject :: actions))
    as [Rm Rl].
  destruct (run c1 _) as [c2 t2]. cbn [snd] in *.
  rewrite !mapsBuilt_app, !listenersAdded_app, Hm, Hl, Rm, Rl. simpl.
  split; [done|]. by destruct (truthyString _).
Qed.

(** ** The overlay keeps up with the data prop *)

Lemma overlayData_app (layers : list StyledFeatureData) (xs ys : list Call) :
  overlayData layers (xs ++ ys) = overlayData (overlayData layers xs) ys.
Proof.
  revert layers. induction xs as [|c xs IH]; intros layers; [done|].
  destruct c; simpl; by rewrite ?IH.
Qed.

Lemma overlayData_componentDidUpdate (layers : list StyledFeatureData)
    (this : Component) (prevProps : MapProps) :
  overlayData layers (componentDidUpdate this prevProps) =
    if didDataChange (data (props this)) (data prevProps)
    then data (props this) else layers.
Proof.
  unfold componentDidUpdate. rewrite !overlayData_app.
  destruct (didDataChange _ _); destruct (negb (isEqual _ _));
    by destruct (_ || _).
Qed.

Section Sync.

Hypothesis shallowEqual_trans : ∀ x y z,
  shallowEqual x y = true → shallowEqual y z = true → shallowEqual x z = true.
Hypothesis shallowEqualProps_data : ∀ q q',
  shallowEqualProps q q' = true → data q = data q'.

Lemma sameLayers_step (current previous passed : list StyledFeatureData) :
  didDataChange current previous = false →
  sameLayers previous passed →
  sameLayers current passed.
Proof.
  intros Hsame Hprev. apply didDataChange_false in Hsame as [Hlen Hall].
  destruct Hprev as [<- | [Hlen' Hall']]; right.
  - done.
  - split; [congruence|]. intros i x z Hx Hz.
    destruct (previous !! i) as [y|] eqn:Hy.
    + eapply shallowEqual_trans; [by eapply Hall | by eapply Hall'].
    + apply lookup_lt_Some in Hx. apply lookup_ge_None in Hy. lia.
Qed.

Lemma update_sync (this : Component) (nextProps : MapProps)
    (nextState : option MapState) (passed : list StyledFeatureData) :
  sameLayers (data (props this)) passed →
  sameLayers (data (props (update this nextProps nextState).1))
    (overlayData passed (update this nextProps nextState).2).
Proof.
  intros Hinv. unfold update, shouldComponentUpdate.
  destruct (shallowEqualProps nextProps (props this)) eqn:Hp; simpl.
  - destruct (shallowEqualState nextState (state this)); simpl.
    + by rewrite (shallowEqualProps_data _ _ Hp).
    + rewrite overlayData_componentDidUpdate. cbn [props withProps].
      rewrite (shallowEqualProps_data _ _ Hp).
      destruct (didDataChange _ _) eqn:Hd; [by left|].
      by eapply sameLayers_step.
  - rewrite overlayData_componentDidUpdate. cbn [props withProps].
    destruct (didDataChange _ _) eqn:Hd; [by left|].
    by eapply sameLayers_step.
Qed.

Lemma step_sync (this : Component) (a : Action)
    (passed : list StyledFeatureData) :
  sameLayers (data (props this)) passed →
  sameLayers (data (props (step this a).1)) (overlayData passed (step this a).2).
Proof.
  intros Hinv. destruct a as [nextProps | nextState | e | error]; simpl.
  - by apply update_sync.
  - by apply update_sync.
  - unfold dispatch. destruct (mounted this); [|done].
    destruct e as [| event | event passes | v]; simpl.
    + by destruct (idlePending this); simpl; [destruct (onLoad _)|].
    + unfold onClickEvent. by destruct (onClick _).
    + by destruct (hoverPointer this); [destruct passes|].
    + unfold onBoundsChangedEvent. by destruct (onBoundsChanged _).
  - done.
Qed.

Lemma run_sync (this : Component) (actions : list Action)
    (passed : list StyledFeatureData) :
  sameLayers (data (props this)) passed →
  sameLayers (data (props (run this actions).1))
    (overlayData passed (run this actions).2).
Proof.
  revert this passed. induction actions as [|a rest IH]; intros this passed Hinv;
    [done|].
  simpl. pose proof (step_sync this a passed Hinv) as Hstep.
  destruct (step this a) as [this' calls]. cbn [fst snd] in *.
  specialize (IH this' _ Hstep). destruct (run this' rest) as [this'' calls'].
  cbn [fst snd] in *. by rewrite overlayData_app.
Qed.

End Sync.

(** The skipped calls of [updateData] lose nothing: along any life of the
    component, the layers last passed to the overlay are the current data
    prop, or an array of the same length whose elements are shallow-equal to
    those of the current data prop. This holds when [shallowEqual] is
    transitive and props that are shallow-equal have the same data. *)
Theorem overlay_data_follows_props (p : MapProps) (actions : list Action) :
  (∀ x y z, shallowEqual x y = true → shallowEqual y z = true →
     shallowEqual x z = true) →
  (∀ q q', shallowEqualProps q q' = true → data q = data q') →
  sameLayers (data (props (lifecycle p actions).1))
    (overlayData [] (lifecycle p actions).2).
Proof.
  intros Htrans Hprops. unfold lifecycle, construct.
  match goal with |- context [componentDidMount ?c] => set (c0 := c) end.
  assert (props (componentDidMount c0).1 = p ∧
          overlayData [] (NewCanvasOverlay :: (componentDidMount c0).2)
            = data p) as [Hp Hd].
  { split; [done|]. unfold componentDidMount. cbn [snd props c0].
    destruct (mapStyles p); destruct (onMouseOverPointer p) as [pointer|];
      simpl; try done; by destruct (negb (String.eqb pointer "")). }
  destruct (componentDidMount c0) as [c1 t1]. cbn [fst snd] in *.
  pose proof (run_sync Htrans Hprops c1 (StateUpdate EmptyObject :: actions)
                (data p)) as Hrun.
  destruct (run c1 _) as [c2 t2]. cbn [fst snd] in *.
  change ([NewCanvasOverlay] ++ t1 ++ t2) with ((NewCanvasOverlay :: t1) ++ t2).
  rewrite overlayData_app, Hd. apply Hrun. left. by rewrite Hp.
Qed.

End More.

(** ** The properties on a sample map *)

Import OverlaySamples.

Lemma sample_shallowEqual_trans (x y z : string) :
  String.eqb x y = true → String.eqb y z = true → String.eqb x z = true.
Proof.
  intros Hxy Hyz. apply String.eqb_eq in Hxy, Hyz. apply String.eqb_eq.
  congruence.
Defined.

Lemma didDataChange_symmetric_witness :
  didDataChange (data OverlaySamples.city) (data OverlaySamples.cityLater)
  = didDataChange (data OverlaySamples.cityLater) (data OverlaySamples.city).
Proof.
  apply (didDataChange_symmetric (data OverlaySamples.city)
           (data OverlaySamples.cityLater)).
  exact String.eqb_sym.
Defined.

Lemma unchanged_props_update_is_silent_witness :
  (update OverlaySamples.cityMap (props OverlaySamples.cityMap)
     (Some EmptyObject)).2 = [].
Proof.
  apply (unchanged_props_update_is_silent OverlaySamples.cityMap
           (Some EmptyObject)).
  - intros x _. apply String.eqb_refl.
  - reflexivity.
Defined.

Lemma listeners_use_the_current_props_witness :
  (dispatch (step OverlaySamples.cityMap (Update OverlaySamples.cityLater)).1
     (Click OverlaySamples.onTriangle)).2 =
    [Overlay_hitTest (latLng OverlaySamples.onTriangle);
     Props_onClick "handleClick" OverlaySamples.onTriangle
       (Some 0) (Some "triangleA")].
Proof.
  refine (proj1 (listeners_use_the_current_props OverlaySamples.cityMap
                   OverlaySamples.cityLater OverlaySamples.onTriangle
                   OverlaySamples.window "handleClick" "handleBounds" _ _ _));
    reflexivity.
Defined.

Lemma loose_shallowEqual_trans (x y z : string) :
  Nat.eqb (String.length x) (String.length y) = true →
  Nat.eqb (String.length y) (String.length z) = true →
  Nat.eqb (String.length x) (String.length z) = true.
Proof.
  intros Hxy Hyz. apply Nat.eqb_eq in Hxy, Hyz. apply Nat.eqb_eq. congruence.
Defined.

Lemma loose_shallowEqualProps_data (q q' : MapProps) :
  shallowEqualProps (Helpers := OverlaySamples.looseHelpers) q q' = true →
  data q = data q'.
Proof. intros Heq. exact (bool_decide_eq_true_1 _ Heq). Defined.

(** With the helpers [looseHelpers], the first update changes the layers to
    shallow-equal ones, so [didDataChange] is false and [updateData] is
    skipped; the second is vetoed by [shouldComponentUpdate]. The overlay
    keeps the layers of the mount. *)
Lemma overlay_data_follows_props_witness :
  (shallowEqualProps (Helpers := OverlaySamples.looseHelpers)
     OverlaySamples.cityQuiet OverlaySamples.cityRenamed = true ∧
   didDataChange (U := OverlaySamples.looseHelpers)
     (data OverlaySamples.cityRenamed) (data OverlaySamples.city) = false ∧
   data (props (lifecycle (U := OverlaySamples.looseHelpers)
                  OverlaySamples.city
                  [Update OverlaySamples.cityRenamed;
                   Update OverlaySamples.cityQuiet]).1)
     = ["trains"; "roads"] ∧
   overlayData []
     (lifecycle (U := OverlaySamples.looseHelpers) OverlaySamples.city
        [Update OverlaySamples.cityRenamed;
         Update OverlaySamples.cityQuiet]).2
     = ["routes"; "stops"]) ∧
  sameLayers (U := OverlaySamples.looseHelpers)
    (data (props (lifecycle (U := OverlaySamples.looseHelpers)
                    OverlaySamples.city
                    [Update OverlaySamples.cityRenamed;
                     Update OverlaySamples.cityQuiet]).1))
    (overlayData []
       (lifecycle (U := OverlaySamples.looseHelpers) OverlaySamples.city
          [Update OverlaySamples.cityRenamed;
           Update OverlaySamples.cityQuiet]).2).
Proof.
  split; [repeat split; reflexivity|].
  apply (overlay_data_follows_props (U := OverlaySamples.looseHelpers)
           OverlaySamples.city
           [Update OverlaySamples.cityRenamed; Update OverlaySamples.cityQuiet]).
  - exact loose_shallowEqual_trans.
  - exact loose_shallowEqualProps_data.
Defined.

End OverlayMapMore.
